(** * pachctl command front-end: delete-all, port-forward, migrate

    A shallow embedding of [src/server/cmd/pachctl/cmd/cmd.go].

    The commands are closures built by [PachctlCmd]; each one is embedded
    as a function of the flag variables it captures and of a _world_ that
    fixes the answer of every external collaborator the closure calls (the
    pachd client, standard input, [sh], [kubectl], the temp directory).
    Every external call is also appended to a trace of events, so that
    statements such as "the deletion is invoked exactly once" or "the live
    version is never queried" are statements about that trace. *)

From Stdlib Require Import ZArith NArith String Ascii List Lia.
From Stdlib Require Import Strings.Byte DecimalString.
From stdpp Require Import base option list gmap strings.

Local Open Scope string_scope.
Local Open Scope list_scope.

(** ** Go values shared by the three commands *)

(** The one-character strings that cannot be typed inside a literal. *)
Definition LF : string := String (ascii_of_nat 10) EmptyString.
Definition DQ : string := String (ascii_of_nat 34) EmptyString.

(** [%d] of an unsigned and of a signed integer. *)
Definition fmt_N (n : N) : string := NilZero.string_of_uint (N.to_uint n).
Definition fmt_Z (z : Z) : string := NilZero.string_of_int (Z.to_int z).

(** Go's [error] values that reach this file: [errors.New] and [fmt.Errorf]
    build an [errorString]; the grpc library builds an [rpcError] carrying a
    status code and a description. [nil] is [None] of [option error]. *)
Inductive error : Type :=
  | errorString (s : string)
  | rpcError (code : N) (desc : string).

(** The [Error()] method. *)
Definition Error (e : error) : string :=
  match e with
  | errorString s => s
  | rpcError code desc =>
      "rpc error: code = " +:+ fmt_N code +:+ " desc = " +:+ desc
  end.

(** [grpc.ErrorDesc]: the description of an rpc error, [Error()] of any
    other error. *)
Definition ErrorDesc (e : error) : string :=
  match e with
  | rpcError _ desc => desc
  | errorString s => s
  end.

Definition errors_New (s : string) : error := errorString s.

(** [io.EOF]. *)
Definition io_EOF : error := errors_New "EOF".

(** [sanitizeErr], cmd.go:344. *)
Definition sanitizeErr (err : option error) : option error :=
  match err with
  | None => None
  | Some e => Some (errors_New (ErrorDesc e))
  end.

(** A command either returns, or panics on an index out of range. *)
Inductive Res (A : Type) : Type :=
  | Ok (a : A)
  | Panic.
Arguments Ok {A} a.
Arguments Panic {A}.

(** State-and-panic monad over a command's store [S]. *)
Definition M (S A : Type) : Type := S -> Res A * S.

Definition ret {S A} (a : A) : M S A := fun s => (Ok a, s).

Definition bind {S A B} (m : M S A) (k : A -> M S B) : M S B :=
  fun s =>
    match m s with
    | (Ok a, s') => k a s'
    | (Panic, s') => (Panic, s')
    end.

Definition panic {S A} : M S A := fun s => (Panic, s).

#[export] Instance M_ret {S} : MRet (M S) := fun A a => ret a.
#[export] Instance M_bind {S} : MBind (M S) := fun A B k m => bind m k.

(** [xs[i]] on a slice: a run-time panic outside the bounds. *)
Definition index {S A} (xs : list A) (i : nat) : M S A :=
  match xs !! i with
  | Some x => ret x
  | None => panic
  end.

(** ** delete-all (cmd.go:118-139) *)

Module DeleteAll.

(** A [bufio.Reader] over a stream: the bytes the stream still delivers,
    and the error its [Read] reports once they are used up ([io.EOF] at the
    end of the input, or an I/O error). *)
Record Reader : Type := {
  pending : list byte;
  failure : error
}.

(** Scan for the first [delim]: the bytes up to and including it, and the
    bytes that follow. *)
Fixpoint readUntil (delim : byte) (buf : list byte)
  : option (list byte * list byte) :=
  match buf with
  | [] => None
  | b :: rest =>
      if Byte.eqb b delim then Some ([b], rest)
      else match readUntil delim rest with
           | Some (line, rest') => Some (b :: line, rest')
           | None => None
           end
  end.

(** [bufio.Reader.ReadBytes]: reads until the first occurrence of [delim]
    and returns the data up to and including it; when the stream fails
    first, it returns the data read before the error, and the error. *)
Definition ReadBytes (delim : byte) (r : Reader)
  : (list byte * option error) * Reader :=
  match readUntil delim (pending r) with
  | Some (line, rest) =>
      ((line, None), {| pending := rest; failure := failure r |})
  | None =>
      ((pending r, Some (failure r)), {| pending := []; failure := failure r |})
  end.

(** What the world answers to the closure's external calls. *)
Record World : Type := {
  (** [client.NewMetricsClientFromAddress]: [None] when the client is built. *)
  newClient : string -> bool -> string -> option error;
  (** [client.DeleteAll]. *)
  deleteAllResult : option error
}.

Inductive Event : Type :=
  | EvNewClient (address : string) (metrics : bool) (prefix : string)
  | EvPrintf (text : string)
  | EvReadBytes (delim : byte)
  | EvDeleteAll.

Record Store : Type := {
  stdin : Reader;
  trace : list Event
}.

Definition emit (e : Event) : M Store unit :=
  fun s => (Ok tt, {| stdin := stdin s; trace := trace s ++ [e] |}).

Definition NewMetricsClientFromAddress (w : World)
    (address : string) (metrics : bool) (prefix : string)
  : M Store (option error) :=
  emit (EvNewClient address metrics prefix) ;;
  mret (newClient w address metrics prefix).

Definition Printf (text : string) : M Store unit := emit (EvPrintf text).

Definition Stdin_ReadBytes (delim : byte) : M Store (list byte * option error) :=
  fun s =>
    let '(out, r') := ReadBytes delim (stdin s) in
    (Ok out, {| stdin := r'; trace := trace s ++ [EvReadBytes delim] |}).

Definition client_DeleteAll (w : World) : M Store (option error) :=
  emit EvDeleteAll ;; mret (deleteAllResult w).

Definition prompt : string :=
  "Are you sure you want to delete all repos, commits, files, pipelines and jobs? yN"
  +:+ LF.

(** The [Run] closure of [deleteAll], cmd.go:123-138. *)
Definition deleteAll (address : string) (noMetrics : bool) (w : World)
  : M Store (option error) :=
  err ← NewMetricsClientFromAddress w address (negb noMetrics) "user";
  match err with
  | Some _ => mret (sanitizeErr err)
  | None =>
      Printf prompt ;;
      '(bytes, err) ← Stdin_ReadBytes "010"%byte;
      match err with
      | Some e => mret (Some e)
      | None =>
          b0 ← index bytes 0;
          if Byte.eqb b0 "y"%byte || Byte.eqb b0 "Y"%byte
          then client_DeleteAll w
          else mret None
      end
  end.

(** Observations on a finished run. *)
Definition deletions (t : list Event) : nat :=
  length (List.filter (fun e => match e with EvDeleteAll => true | _ => false end) t).

Definition reads (t : list Event) : nat :=
  length (List.filter (fun e => match e with EvReadBytes _ => true | _ => false end) t).

Definition start (input : Reader) : Store := {| stdin := input; trace := [] |}.

Definition isYes (line : list byte) : bool :=
  match line with
  | b :: _ => Byte.eqb b "y"%byte || Byte.eqb b "Y"%byte
  | [] => false
  end.

End DeleteAll.

(** ** port-forward (cmd.go:140-194) *)

Module PortForward.

(** The flag variables the closure captures (Go [int] and [string]). *)
Record Flags : Type := {
  port : Z;
  uiPort : Z;
  uiWebsocketPort : Z;
  kubeCtlFlags : string
}.

(** [cmdutil.IO], with the two fields the closure sets: the text bound to
    the subprocess's standard input, and whether [os.Stderr] is attached. *)
Record IO : Type := {
  Stdin : string;
  Stderr : bool
}.

(** A subprocess either never exits, or exits and [cmdutil.RunIO] returns. *)
Inductive Exit : Type :=
  | Blocks
  | Exits (err : option error).

Record World : Type := {
  RunIO : IO -> list string -> Exit
}.

(** The three functions handed to [eg.Go], in program order. *)
Inductive Task : Type :=
  | Pachd            (* cmd.go:152-161 *)
  | DashUI           (* cmd.go:163-174 *)
  | DashWebsocket.   (* cmd.go:176-185 *)

Definition awk : string := "awk '{if (NR!=1) { print $1; exit 0 }}'".

(** The shell text of each task, [fmt.Sprintf] written out. *)
Definition stdinOf (f : Flags) (t : Task) : string :=
  match t with
  | Pachd =>
      LF +:+ "pod=$(kubectl " +:+ kubeCtlFlags f
         +:+ " get pod -l app=pachd | " +:+ awk +:+ ")" +:+ LF
         +:+ "kubectl " +:+ kubeCtlFlags f +:+ " port-forward "
         +:+ DQ +:+ "$pod" +:+ DQ +:+ " " +:+ fmt_Z (port f) +:+ ":650" +:+ LF
  | DashUI =>
      LF +:+ "pod=$(kubectl " +:+ kubeCtlFlags f
         +:+ " get pod -l app=dash | " +:+ awk +:+ ")" +:+ LF
         +:+ "kubectl " +:+ kubeCtlFlags f +:+ " port-forward "
         +:+ DQ +:+ "$pod" +:+ DQ +:+ " " +:+ fmt_Z (uiPort f) +:+ ":8080" +:+ LF
  | DashWebsocket =>
      LF +:+ "pod=$(kubectl " +:+ kubeCtlFlags f
         +:+ " get pod -l app=dash | " +:+ awk +:+ ")" +:+ LF
         +:+ "kubectl " +:+ kubeCtlFlags f +:+ " port-forward "
         +:+ DQ +:+ "$pod" +:+ DQ +:+ " " +:+ fmt_Z (uiWebsocketPort f)
         +:+ ":8081" +:+ LF
  end.

(** The [cmdutil.IO] each task passes: only the pachd task forwards the
    subprocess's standard error. *)
Definition ioOf (f : Flags) (t : Task) : IO :=
  {| Stdin := stdinOf f t;
     Stderr := match t with Pachd => true | _ => false end |}.

(** How the subprocess of a task ends in a world. *)
Definition exitOf (w : World) (f : Flags) (t : Task) : Exit :=
  RunIO w (ioOf f t) ["sh"].

Definition uiNotEnabled : error :=
  errorString "UI not enabled, deploy with --dashboard".

(** What each function returns to the group once [RunIO] has returned
    [runErr]. *)
Definition taskReturn (t : Task) (runErr : option error) : option error :=
  match t with
  | Pachd => runErr
  | DashUI =>
      match runErr with
      | Some _ => Some uiNotEnabled
      | None => None
      end
  | DashWebsocket => None
  end.

(** [errgroup.Group] without a context: the wait-group counter, the
    [sync.Once] guarding [err], and [err]. *)
Record Group : Type := {
  wg : nat;
  errOnce : bool;
  err : option error
}.

Definition zeroGroup : Group := {| wg := 0; errOnce := false; err := None |}.

(** [g.wg.Add(1)], the first statement of [Group.Go]. *)
Definition wgAdd (g : Group) : Group :=
  {| wg := S (wg g); errOnce := errOnce g; err := err g |}.

(** [g.errOnce.Do(func() { g.err = err })]. *)
Definition errOnceDo (e : error) (g : Group) : Group :=
  if errOnce g then g
  else {| wg := wg g; errOnce := true; err := Some e |}.

(** The tail of the goroutine [Group.Go] starts, once [f()] has returned
    [r]: record the first error; the deferred [g.wg.Done()]. *)
Definition goroutineExit (r : option error) (g : Group) : Group :=
  let g' := match r with
            | Some e => errOnceDo e g
            | None => g
            end in
  {| wg := pred (wg g'); errOnce := errOnce g'; err := err g' |}.

(** Where the goroutine of a task stands. *)
Inductive Status : Type :=
  | NotStarted     (* [eg.Go] not yet called *)
  | Spawned        (* goroutine created, [RunIO] not yet called *)
  | Running        (* inside [RunIO] *)
  | Finished.      (* the function returned and [wg.Done] ran *)

(** Where the closure itself stands. *)
Inductive PC : Type :=
  | Launch (t : Task)              (* about to call [eg.Go] for [t] *)
  | Announce                       (* about to print, cmd.go:187 *)
  | Waiting                        (* inside [eg.Wait()] *)
  | Returned (r : option error).   (* the closure returned [r] *)

Inductive Event : Type :=
  | EvRunIO (io : IO) (args : list string)
  | EvReturn (t : Task) (r : option error)
  | EvPrintf (text : string).

Record State : Type := {
  pc : PC;
  eg : Group;
  status : Task -> Status;
  trace : list Event
}.

Definition Task_eqb (a b : Task) : bool :=
  match a, b with
  | Pachd, Pachd | DashUI, DashUI | DashWebsocket, DashWebsocket => true
  | _, _ => false
  end.

Definition setStatus (t : Task) (st : Status) (m : Task -> Status)
  : Task -> Status :=
  fun t' => if Task_eqb t t' then st else m t'.

Definition afterLaunch (t : Task) : PC :=
  match t with
  | Pachd => Launch DashUI
  | DashUI => Launch DashWebsocket
  | DashWebsocket => Announce
  end.

Definition announcement (f : Flags) : string :=
  "Pachd port forwarded" +:+ LF +:+ "Dash websocket port forwarded" +:+ LF
  +:+ "Dash UI port forwarded, navigate to localhost:" +:+ fmt_Z (uiPort f)
  +:+ LF +:+ "CTRL-C to exit".

Definition init : State :=
  {| pc := Launch Pachd; eg := zeroGroup;
     status := fun _ => NotStarted; trace := [] |}.

(** Who moves next: the closure, or the goroutine of a task (entering
    [RunIO], or leaving it). *)
Inductive Action : Type :=
  | Main
  | Start (t : Task)
  | Finish (t : Task).

(** One move of the interleaving; [None] when the move is not enabled
    ([eg.Wait] with goroutines outstanding, a subprocess that never exits,
    a goroutine that is elsewhere). *)
Definition step (w : World) (f : Flags) (a : Action) (s : State)
  : option State :=
  match a with
  | Main =>
      match pc s with
      | Launch t =>
          Some {| pc := afterLaunch t; eg := wgAdd (eg s);
                  status := setStatus t Spawned (status s);
                  trace := trace s |}
      | Announce =>
          Some {| pc := Waiting; eg := eg s; status := status s;
                  trace := trace s ++ [EvPrintf (announcement f)] |}
      | Waiting =>
          if Nat.eqb (wg (eg s)) 0
          then Some {| pc := Returned (err (eg s)); eg := eg s;
                       status := status s; trace := trace s |}
          else None
      | Returned _ => None
      end
  | Start t =>
      match status s t with
      | Spawned =>
          Some {| pc := pc s; eg := eg s;
                  status := setStatus t Running (status s);
                  trace := trace s ++ [EvRunIO (ioOf f t) ["sh"]] |}
      | _ => None
      end
  | Finish t =>
      match status s t, exitOf w f t with
      | Running, Exits runErr =>
          let r := taskReturn t runErr in
          Some {| pc := pc s; eg := goroutineExit r (eg s);
                  status := setStatus t Finished (status s);
                  trace := trace s ++ [EvReturn t r] |}
      | _, _ => None
      end
  end.

(** A run: a schedule of moves, each enabled when its turn comes. *)
Fixpoint exec (w : World) (f : Flags) (sched : list Action) (s : State)
  : option State :=
  match sched with
  | [] => Some s
  | a :: rest =>
      match step w f a s with
      | Some s' => exec w f rest s'
      | None => None
      end
  end.

(** The run [sched] of the command ends with the closure returning [r]. *)
Definition returns (w : World) (f : Flags) (sched : list Action)
    (r : option error) : Prop :=
  exists s, exec w f sched init = Some s /\ pc s = Returned r.

End PortForward.

(** ** migrate (cmd.go:217-318) *)

Module Migrate.

(** [versionpb.Version]. *)
Record Version : Type := {
  Major : N;
  Minor : N;
  Micro : N;
  Additional : string
}.

(** Modelled from the spec: [version.PrettyPrintVersionNoAdditional] is
    declared in the client's version package, not in cmd.go; it formats
    "major.minor.micro only, qualifiers stripped". *)
Definition PrettyPrintVersionNoAdditional (v : Version) : string :=
  fmt_N (Major v) +:+ "." +:+ fmt_N (Minor v) +:+ "." +:+ fmt_N (Micro v).

(** Modelled from the spec: [version.PrettyPrintVersion], from the same
    package; the additional qualifier is "retained for display". *)
Definition PrettyPrintVersion (v : Version) : string :=
  PrettyPrintVersionNoAdditional v +:+ Additional v.

(** The flag variables the closure captures. *)
Record Flags : Type := {
  from : string;
  to : string;
  namespace : string
}.

(** The kubernetes objects of the job literal, with the fields it sets;
    every other field keeps Go's zero value. *)
Record TypeMeta : Type := {
  Kind : string;
  APIVersion : string
}.

Record ObjectMeta : Type := {
  Name : string;
  Labels : gmap string string
}.

Record Container : Type := {
  ContainerName : string;
  Image : string;
  Command : list string
}.

Record PodSpec : Type := {
  Containers : list Container;
  RestartPolicy : string
}.

Record PodTemplateSpec : Type := {
  PodTemplateSpec_Spec : PodSpec
}.

Record JobSpec : Type := {
  Template : PodTemplateSpec
}.

Record Job : Type := {
  Job_TypeMeta : TypeMeta;
  Job_ObjectMeta : ObjectMeta;
  Job_Spec : JobSpec
}.

(** [codec.JsonHandle], with the two options the closure sets. *)
Record JsonHandle : Type := {
  Canonical : bool;
  Indent : Z
}.

(** [time.Second], in nanoseconds. *)
Definition time_Second : Z := 1000000000.

Record World : Type := {
  (** [grpc.Dial] on the address: [None] when a connection is returned. *)
  Dial : string -> option error;
  (** [versionClient.GetVersion] on the address, under a deadline. *)
  GetVersion : string -> Z -> error + Version;
  (** [ioutil.TempFile]: the name of the file it created. *)
  TempFile : string -> string -> error + string;
  (** [cmd.CombinedOutput]: what the command prints, and its error, given
      its argument vector and the files it can read. *)
  CombinedOutput : list string -> gmap string (list byte) -> string * option error
}.

Inductive Event : Type :=
  | EvDial (address : string)
  | EvGetVersion (address : string) (timeout : Z)
  | EvTempFile (dir pattern : string)
  | EvEncode (file : string) (h : JsonHandle) (job : Job)
  | EvClose (file : string)
  | EvExec (argv : list string) (files : gmap string (list byte))
  | EvPrintln (text : string)
  | EvRemove (file : string).

Record Store : Type := {
  fs : gmap string (list byte);
  trace : list Event
}.

Definition emit (e : Event) : M Store unit :=
  fun s => (Ok tt, {| fs := fs s; trace := trace s ++ [e] |}).

(** [getVersionAPIClient], cmd.go:328; the client is known by the address
    it was dialled on. *)
Definition getVersionAPIClient (w : World) (address : string)
  : M Store (string * option error) :=
  emit (EvDial address) ;;
  match Dial w address with
  | Some e => mret (EmptyString, Some e)
  | None => mret (address, None)
  end.

Definition versionClient_GetVersion (w : World) (client : string) (timeout : Z)
  : M Store (error + Version) :=
  emit (EvGetVersion client timeout) ;;
  mret (GetVersion w client timeout).

Definition Errorf_discover (e : error) : error :=
  errorString
    ("unable to discover cluster version; please provide the --from flag.  Error: "
     +:+ Error e).

(** cmd.go:243-261: the values of [from] and [to] the rest of the closure
    works with, or the value the closure returns at once. The deferred
    [cancel()] of the deadline has no effect on a collaborator and is left
    out. *)
Definition resolveVersions (address : string) (own : Version) (w : World)
    (fl : Flags) : M Store (option error + string * string) :=
  r ← (if String.eqb (from fl) ""
       then
         '(versionClient, err) ← getVersionAPIClient w address;
         match err with
         | Some _ => mret (inl (sanitizeErr err))
         | None =>
             r ← versionClient_GetVersion w versionClient time_Second;
             match r with
             | inl err => mret (inl (Some (Errorf_discover err)))
             | inr clusterVersion =>
                 mret (inr (PrettyPrintVersionNoAdditional clusterVersion))
             end
         end
       else mret (inr (from fl)));
  match r with
  | inl retErr => mret (inl retErr)
  | inr from' =>
      let to' := if String.eqb (to fl) ""
                 then PrettyPrintVersionNoAdditional own
                 else to fl in
      mret (inr (from', to'))
  end.

(** cmd.go:263-288. *)
Definition jobSpec (own : Version) (from' to' : string) : Job :=
  {| Job_TypeMeta := {| Kind := "Job"; APIVersion := "batch/v1" |};
     Job_ObjectMeta :=
       {| Name := "pach-migration";
          Labels := {[ "suite" := "pachyderm" ]} |};
     Job_Spec :=
       {| Template :=
            {| PodTemplateSpec_Spec :=
                 {| Containers :=
                      [ {| ContainerName := "migration";
                           Image := "pachyderm/pachd:" +:+ PrettyPrintVersion own;
                           Command := [ "/pachd";
                                        "--migrate=" +:+ from' +:+ "-" +:+ to' ] |} ];
                    RestartPolicy := "OnFailure" |} |} |} |}.

Definition jsonEncoderHandle : JsonHandle :=
  {| Canonical := true; Indent := 2 |}.

Definition launched : string :=
  "Successfully launched migration.  To see the progress, use `kubectl logs job/pach-migration`".

Section WithCodec.

(** The generated [CodecEncodeSelf] of [batch.Job] together with the json
    encoder of the codec library: the bytes they produce for a job under a
    handle. Both belong to vendored libraries; the closure only chooses the
    handle and the job. *)
Variable CodecEncodeSelf : JsonHandle -> Job -> list byte.

Definition ioutil_TempFile (w : World) (dir pattern : string)
  : M Store (string * option error) :=
  fun s =>
    match TempFile w dir pattern with
    | inl e =>
        (Ok (EmptyString, Some e),
         {| fs := fs s; trace := trace s ++ [EvTempFile dir pattern] |})
    | inr name =>
        (Ok (name, None),
         {| fs := <[ name := [] ]> (fs s);
            trace := trace s ++ [EvTempFile dir pattern] |})
    end.

(** [codec.NewEncoder(tmpFile, h)] followed by [job.CodecEncodeSelf]. *)
Definition encodeTo (file : string) (h : JsonHandle) (job : Job)
  : M Store unit :=
  fun s =>
    (Ok tt,
     {| fs := alter (fun old => old ++ CodecEncodeSelf h job) file (fs s);
        trace := trace s ++ [EvEncode file h job] |}).

Definition tmpFile_Close (file : string) : M Store unit := emit (EvClose file).

Definition os_Remove (file : string) : M Store unit :=
  fun s => (Ok tt, {| fs := delete file (fs s);
                      trace := trace s ++ [EvRemove file] |}).

Definition cmd_CombinedOutput (w : World) (argv : list string)
  : M Store (string * option error) :=
  fun s => (Ok (CombinedOutput w argv (fs s)),
            {| fs := fs s; trace := trace s ++ [EvExec argv (fs s)] |}).

Definition Println (text : string) : M Store unit := emit (EvPrintln text).

(** cmd.go:290-313, from the temp file on; [os.Remove] is deferred, so it
    runs whatever the rest returns. *)
Definition submit (w : World) (job : Job) : M Store (option error) :=
  '(tmpFile, err) ← ioutil_TempFile w "" "";
  match err with
  | Some e => mret (Some e)
  | None =>
      retErr ← (encodeTo tmpFile jsonEncoderHandle job ;;
                tmpFile_Close tmpFile ;;
                '(out, err) ← cmd_CombinedOutput w
                    [ "kubectl"; "create"; "--validate=false"; "-f"; tmpFile ];
                Println out ;;
                match err with
                | Some e => mret (Some e)
                | None => Println launched ;; mret None
                end);
      os_Remove tmpFile ;;
      mret retErr
  end.

(** The [Run] closure of [migrate], cmd.go:242-314. *)
Definition migrate (address : string) (own : Version) (w : World) (fl : Flags)
  : M Store (option error) :=
  r ← resolveVersions address own w fl;
  match r with
  | inl retErr => mret retErr
  | inr (from', to') => submit w (jobSpec own from' to')
  end.

End WithCodec.

(** Observations on a trace. *)
Definition isQuery (e : Event) : bool :=
  match e with
  | EvDial _ | EvGetVersion _ _ => true
  | _ => false
  end.

Definition isArtifact (e : Event) : bool :=
  match e with
  | EvTempFile _ _ => true
  | _ => false
  end.

Definition isJob (e : Event) : bool :=
  match e with
  | EvEncode _ _ _ => true
  | _ => false
  end.

(** The jobs handed to the encoder, the command lines handed to the
    scheduler, and what the scheduler finds in the file named by the last
    argument of its command line, in order. *)
Definition encoded (t : list Event) : list (JsonHandle * Job) :=
  flat_map (fun e => match e with
                     | EvEncode _ h j => [(h, j)]
                     | _ => []
                     end) t.

Definition submissions (t : list Event) : list (list string) :=
  flat_map (fun e => match e with
                     | EvExec argv _ => [argv]
                     | _ => []
                     end) t.

Definition artifacts (t : list Event) : list (option (list byte)) :=
  flat_map (fun e => match e with
                     | EvExec argv files =>
                         [ file ← List.last (List.map Some argv) None;
                           files !! file ]
                     | _ => []
                     end) t.

Definition start (files : gmap string (list byte)) : Store :=
  {| fs := files; trace := [] |}.

End Migrate.

(** ** Concrete worlds, inputs and schedules *)

Section DeleteAllExamples.
Import DeleteAll.

Definition refusedWorld : World :=
  {| newClient := fun _ _ _ => Some (rpcError 14 "grpc: the connection is unavailable");
     deleteAllResult := None |}.

Definition yesInput : Reader :=
  {| pending := [ "y"%byte; "010"%byte ]; failure := io_EOF |}.

End DeleteAllExamples.

Section PortForwardExamples.
Import PortForward.

Definition defaultFlags : Flags :=
  {| port := 30650; uiPort := 38080; uiWebsocketPort := 38081;
     kubeCtlFlags := "" |}.

Definition exitStatus1 : error := errorString "exit status 1".

(** The world in which the subprocesses of the three tasks end as given. *)
Definition worldOf (f : Flags) (pachd ui websocket : Exit) : World :=
  {| RunIO := fun io _ =>
       if String.eqb (Stdin io) (stdinOf f Pachd) then pachd
       else if String.eqb (Stdin io) (stdinOf f DashUI) then ui
       else websocket |}.

(** The schedule in which the dashboard-UI subprocess is the first to
    exit, and the pachd subprocess the last. *)
Definition uiFirst : list Action :=
  [ Main; Main; Main; Main;
    Start Pachd; Start DashUI; Start DashWebsocket;
    Finish DashUI; Finish DashWebsocket; Finish Pachd; Main ].

(** The schedule that runs the goroutines to completion one after the
    other, in program order. *)
Definition inOrder : list Action :=
  [ Main; Main; Main; Main;
    Start Pachd; Finish Pachd; Start DashUI; Finish DashUI;
    Start DashWebsocket; Finish DashWebsocket; Main ].

End PortForwardExamples.

Section MigrateExamples.
Import Migrate.

(** Go's [strings.Contains]. *)
Definition Contains (s substr : string) : bool :=
  match String.index 0 substr s with
  | Some _ => true
  | None => false
  end.

(** A stand-in for the encoder, for the concrete runs below. *)
Definition sampleCodec (h : JsonHandle) (job : Job) : list byte :=
  list_byte_of_string
    (String.concat " "
       (flat_map Command
          (Containers (PodTemplateSpec_Spec (Template (Job_Spec job)))))).

Definition pachdAddress : string := "10.0.0.7:30650".

Definition v_1_5_0 : Version :=
  {| Major := 1; Minor := 5; Micro := 0; Additional := "" |}.

Definition v_1_4_8 : Version :=
  {| Major := 1; Minor := 4; Micro := 8; Additional := "" |}.

Definition noFlags : Flags :=
  {| from := ""; to := ""; namespace := "default" |}.

(** A cluster that answers the version query with 1.4.8. *)
Definition liveWorld : World :=
  {| Dial := fun _ => None;
     GetVersion := fun _ _ => inr v_1_4_8;
     TempFile := fun _ _ => inr "/tmp/719283645";
     CombinedOutput := fun _ _ => ("job " +:+ DQ +:+ "pach-migration" +:+ DQ
                                   +:+ " created", None) |}.

(** A cluster whose version query times out. *)
Definition deadlineWorld : World :=
  {| Dial := fun _ => None;
     GetVersion := fun _ _ => inl (rpcError 4 "context deadline exceeded");
     TempFile := fun _ _ => inr "/tmp/264839120";
     CombinedOutput := fun _ _ => ("", None) |}.

(** An address no connection can be made for. *)
Definition undialableWorld : World :=
  {| Dial := fun _ => Some (errorString "grpc: no transport security set");
     GetVersion := fun _ _ => inr v_1_4_8;
     TempFile := fun _ _ => inr "/tmp/719283645";
     CombinedOutput := fun _ _ => ("", None) |}.

Definition explicitFlags : Flags :=
  {| from := "1.4.8"; to := "1.5.0"; namespace := "default" |}.

End MigrateExamples.

(** ** What every reachable state of port-forward satisfies *)

Section PortForwardInvariant.
Import PortForward.
Variables (w : World) (f : Flags).

(** Has [eg.Go] been called for [t] when the closure stands at [p]? *)
Definition launchedAt (p : PC) (t : Task) : bool :=
  match p, t with
  | Launch Pachd, _ => false
  | Launch DashUI, Pachd => true
  | Launch DashUI, _ => false
  | Launch DashWebsocket, DashWebsocket => false
  | _, _ => true
  end.

(** What a goroutine contributes to the wait-group counter. *)
Definition outstanding (st : Status) : nat :=
  match st with
  | Spawned | Running => 1
  | NotStarted | Finished => 0
  end.

(** What holds of every state a run reaches. *)
Record Inv (s : State) : Prop := {
  inv_launched : forall t,
    status s t = NotStarted <-> launchedAt (pc s) t = false;
  inv_wg :
    wg (eg s) = outstanding (status s Pachd) + outstanding (status s DashUI)
                + outstanding (status s DashWebsocket);
  inv_once : errOnce (eg s) = true -> err (eg s) <> None;
  inv_err_some : forall e, err (eg s) = Some e ->
    exists t runErr, status s t = Finished /\ exitOf w f t = Exits runErr /\
                     taskReturn t runErr = Some e;
  inv_err_none : err (eg s) = None -> forall t runErr,
    status s t = Finished -> exitOf w f t = Exits runErr ->
    taskReturn t runErr = None;
  inv_finished : forall t, status s t = Finished ->
    exists runErr, exitOf w f t = Exits runErr /\
                   In (EvReturn t (taskReturn t runErr)) (trace s);
  inv_returned : forall r, pc s = Returned r ->
    r = err (eg s) /\ forall t, status s t = Finished
}.

End PortForwardInvariant.

(** ** garbage-collect (cmd.go:196-215) *)

Module GarbageCollect.

Record World : Type := {
  (** [client.NewMetricsClientFromAddress]: [None] when the client is built. *)
  newClient : string -> bool -> string -> option error;
  (** [client.GarbageCollect]. *)
  garbageCollectResult : option error
}.

Inductive Event : Type :=
  | EvNewClient (address : string) (metrics : bool) (prefix : string)
  | EvGarbageCollect.

Definition emit (e : Event) : M (list Event) unit :=
  fun t => (Ok tt, t ++ [e]).

Definition NewMetricsClientFromAddress (w : World)
    (address : string) (metrics : bool) (prefix : string)
  : M (list Event) (option error) :=
  emit (EvNewClient address metrics prefix) ;;
  mret (newClient w address metrics prefix).

Definition client_GarbageCollect (w : World) : M (list Event) (option error) :=
  emit EvGarbageCollect ;; mret (garbageCollectResult w).

(** The [Run] closure of [garbageCollect], cmd.go:207-214. *)
Definition garbageCollect (address : string) (noMetrics : bool) (w : World)
  : M (list Event) (option error) :=
  err ← NewMetricsClientFromAddress w address (negb noMetrics) "user";
  match err with
  | Some e => mret (Some e)
  | None => client_GarbageCollect w
  end.

Definition collections (t : list Event) : nat :=
  length (List.filter (fun e => match e with
                                | EvGarbageCollect => true
                                | _ => false
                                end) t).

End GarbageCollect.

(** ** version (cmd.go:79-117, 336-342) *)

Module VersionCmd.

Definition TAB : string := String (ascii_of_nat 9) EmptyString.

(** The version service is the one migrate talks to; on top of it, what
    each [Flush] of the table writer on standard output returns, by the
    number of flushes before it. *)
Record World : Type := {
  net : Migrate.World;
  stdoutFlush : nat -> option error
}.

Inductive Event : Type :=
  | EvNet (e : Migrate.Event)
  | EvStartReport (action : string)
  | EvStartWait
  | EvFinishReport (action : string) (retErr : option error)
  | EvFinishWait
  | EvFprintf (text : string)
  | EvFlush.

Record Store : Type := {
  flushes : nat;
  trace : list Event
}.

Definition emit (e : Event) : M Store unit :=
  fun s => (Ok tt, {| flushes := flushes s; trace := trace s ++ [e] |}).

(** Runs a computation of the version service and records its events. *)
Definition liftNet {A} (m : M Migrate.Store A) : M Store A :=
  fun s =>
    let '(r, s') := m (Migrate.start ∅) in
    (r, {| flushes := flushes s;
           trace := trace s ++ List.map EvNet (Migrate.trace s') |}).

(** [printVersionHeader], cmd.go:336. *)
Definition printVersionHeader : M Store unit :=
  emit (EvFprintf ("COMPONENT" +:+ TAB +:+ "VERSION" +:+ TAB +:+ LF)).

(** [printVersion], cmd.go:340. *)
Definition printVersion (component : string) (v : Migrate.Version)
  : M Store unit :=
  emit (EvFprintf (component +:+ TAB +:+ Migrate.PrettyPrintVersion v
                   +:+ TAB +:+ LF)).

(** [writer.Flush()] of the table writer on standard output. *)
Definition writer_Flush (w : World) : M Store (option error) :=
  fun s => (Ok (stdoutFlush w (flushes s)),
            {| flushes := S (flushes s); trace := trace s ++ [EvFlush] |}).

(** [%v] of an error value. *)
Definition fmt_error (err : option error) : string :=
  match err with
  | Some e => Error e
  | None => "<nil>"
  end.

(** The text of cmd.go:109, before the table writer lays it out. *)
Definition unknownText (address : string) (err : option error) : string :=
  "pachd" +:+ TAB
  +:+ "(version unknown) : error connecting to pachd server at address ("
  +:+ address +:+ "): " +:+ fmt_error err +:+ LF +:+ LF
  +:+ "please make sure pachd is up (`kubectl get all`) and portforwarding is enabled"
  +:+ LF.

Section WithTabwriter.

(** What a [tabwriter.Writer] set up as in cmd.go:108 (minimal width 20,
    tab width 1, padding 3, blanks, no flags) has written to its buffer
    after one [Fprintf] of a text and a [Flush]. *)
Variable tabwriter : string -> string.

(** cmd.go:93-115: the closure without its metrics reports. *)
Definition versionBody (address : string) (own : Migrate.Version) (w : World)
  : M Store (option error) :=
  printVersionHeader ;;
  printVersion "pachctl" own ;;
  writer_Flush w ;;
  '(versionClient, err) ← liftNet (Migrate.getVersionAPIClient (net w) address);
  match err with
  | Some _ => mret (sanitizeErr err)
  | None =>
      r ← liftNet (Migrate.versionClient_GetVersion (net w) versionClient
                     Migrate.time_Second);
      match r with
      | inl err =>
          mret (Some (errors_New
                        (tabwriter (unknownText address (sanitizeErr (Some err))))))
      | inr version =>
          printVersion "pachd" version ;;
          writer_Flush w
      end
  end.

(** The [Run] closure of [versionCmd], cmd.go:83-116. The deferred calls
    run last-registered first once [retErr] is set: the finish report and
    its wait, then the wait of the start report. *)
Definition versionCmd (address : string) (noMetrics : bool)
    (own : Migrate.Version) (w : World) : M Store (option error) :=
  if negb noMetrics
  then
    emit (EvStartReport "Version") ;;
    retErr ← versionBody address own w;
    emit (EvFinishReport "Version" retErr) ;;
    emit EvFinishWait ;;
    emit EvStartWait ;;
    mret retErr
  else versionBody address own w.

End WithTabwriter.

Definition start : Store := {| flushes := 0; trace := [] |}.

Definition isMetrics (e : Event) : bool :=
  match e with
  | EvStartReport _ | EvStartWait | EvFinishReport _ _ | EvFinishWait => true
  | _ => false
  end.

(** The rows written to the table on standard output, in order. *)
Definition rows (t : list Event) : list string :=
  flat_map (fun e => match e with
                     | EvFprintf text => [text]
                     | _ => []
                     end) t.

End VersionCmd.

(** ** Observations on a run of port-forward *)

Section PortForwardObservations.
Import PortForward.

(** The first error a task returned, in the order the tasks returned. *)
Fixpoint firstError (t : list Event) : option error :=
  match t with
  | [] => None
  | EvReturn _ (Some e) :: _ => Some e
  | _ :: rest => firstError rest
  end.

(** The subprocesses started, in order. *)
Definition started (t : list Event) : list (IO * list string) :=
  flat_map (fun e => match e with
                     | EvRunIO io args => [(io, args)]
                     | _ => []
                     end) t.

(** The texts printed, in order. *)
Definition printed (t : list Event) : list string :=
  flat_map (fun e => match e with
                     | EvPrintf text => [text]
                     | _ => []
                     end) t.

Definition allTasks : list Task := [Pachd; DashUI; DashWebsocket].

(** Has the goroutine of a task entered [RunIO]? *)
Definition hasStarted (st : Status) : bool :=
  match st with
  | Running | Finished => true
  | NotStarted | Spawned => false
  end.

End PortForwardObservations.

(** * Properties *)

(** Unfolds the monadic plumbing of a command. *)
Ltac run_monad :=
  unfold mbind, M_bind, bind, mret, M_ret, ret, index, panic in *;
  cbn [fst snd] in *.

(** ** delete-all *)

Section DeleteAllFacts.
Import DeleteAll.

Lemma readUntil_Some delim buf line rest :
  readUntil delim buf = Some (line, rest) ->
  buf = line ++ rest /\
  exists body, line = body ++ [delim] /\ ~ In delim body.
Proof.
  revert line rest.
  induction buf as [|b buf IH]; intros line rest H; cbn in H; [discriminate|].
  destruct (Byte.eqb b delim) eqn:E.
  - apply Byte.byte_dec_bl in E. inversion H; subst.
    split; [reflexivity|]. exists []. split; [reflexivity | intros []].
  - destruct (readUntil delim buf) as [[l r]|] eqn:R; [|discriminate].
    inversion H; subst.
    destruct (IH _ _ eq_refl) as (-> & body & -> & Hb).
    split; [reflexivity|].
    exists (b :: body). split; [reflexivity|].
    intros [->|Hin]; [|tauto].
    rewrite (Byte.byte_dec_lb eq_refl) in E. discriminate.
Qed.

Lemma readUntil_None delim buf :
  readUntil delim buf = None -> ~ In delim buf.
Proof.
  induction buf as [|b buf IH]; cbn; [tauto|].
  destruct (Byte.eqb b delim) eqn:E; [discriminate|].
  destruct (readUntil delim buf) as [[l r]|]; [discriminate|].
  intros _ [->|Hin]; [|tauto].
  rewrite (Byte.byte_dec_lb eq_refl) in E. discriminate.
Qed.

(** [ReadBytes] returns without an error exactly when the data it returns
    ends in the delimiter. *)
Lemma ReadBytes_ok delim r line r' :
  ReadBytes delim r = ((line, None), r') ->
  exists body, line = body ++ [delim] /\ ~ In delim body.
Proof.
  unfold ReadBytes. destruct (readUntil delim (pending r)) as [[l rest]|] eqn:R.
  - intros H; inversion H; subst.
    apply readUntil_Some in R. tauto.
  - discriminate.
Qed.

Lemma ReadBytes_err delim r line e r' :
  ReadBytes delim r = ((line, Some e), r') ->
  line = pending r /\ e = failure r /\ ~ In delim line.
Proof.
  unfold ReadBytes. destruct (readUntil delim (pending r)) as [[l rest]|] eqn:R.
  - discriminate.
  - intros H; inversion H; subst. auto using readUntil_None.
Qed.

(** C8, as stated, fails: when the client cannot be built the command
    returns before the prompt, so no line is read although the input held
    a line starting with [y]. *)
Lemma delete_all_reads_nothing_without_client :
  let run := deleteAll "127.0.0.1:30650" false refusedWorld (start yesInput) in
  isYes (pending yesInput) = true /\
  reads (trace (snd run)) = 0 /\
  deletions (trace (snd run)) = 0 /\
  fst run = Ok (Some (errorString "grpc: the connection is unavailable")).
Proof. repeat split. Qed.

(** C8, amended: in every delete-all invocation, if the client cannot be
    built the command returns that error, sanitized, without reading or
    deleting; otherwise exactly one line is read, and
    - if the read fails, the command returns the read error and deletes
      nothing;
    - if the line starts with [y] or [Y], the deletion is invoked exactly
      once and its result is returned;
    - on any other line the deletion is not invoked and the command
      returns no error. *)
Theorem delete_all_guard (address : string) (noMetrics : bool) (w : World)
    (input : Reader) :
  let run := deleteAll address noMetrics w (start input) in
  let read := fst (ReadBytes "010"%byte input) in
  match newClient w address (negb noMetrics) "user" with
  | Some e =>
      fst run = Ok (Some (errors_New (ErrorDesc e))) /\
      reads (trace (snd run)) = 0 /\ deletions (trace (snd run)) = 0
  | None =>
      reads (trace (snd run)) = 1 /\
      match snd read with
      | Some e =>
          fst run = Ok (Some e) /\ deletions (trace (snd run)) = 0
      | None =>
          if isYes (fst read)
          then deletions (trace (snd run)) = 1 /\
               fst run = Ok (deleteAllResult w)
          else deletions (trace (snd run)) = 0 /\ fst run = Ok None
      end
  end.
Proof.
  cbv zeta. unfold deleteAll, NewMetricsClientFromAddress, Printf,
    Stdin_ReadBytes, client_DeleteAll, emit, start.
  run_monad. cbn [stdin trace].
  destruct (newClient w address (negb noMetrics) "user") as [e|]; cbn.
  - auto.
  - destruct (ReadBytes "010"%byte input) as [[line [e|]] r'] eqn:R; cbn.
    + auto.
    + apply ReadBytes_ok in R as (body & -> & _).
      destruct body as [|b body]; cbn.
      * auto.
      * destruct (Byte.eqb b "y"%byte || Byte.eqb b "Y"%byte); cbn; auto.
Qed.

(** C10: the first byte of the line is always there to be indexed. A read
    that returns without an error returns data ending in the delimiter,
    hence at least one byte; a read that returns an error makes the
    command return that error, whatever was read; so no run panics. *)
Theorem first_byte_in_bounds (address : string) (noMetrics : bool)
    (w : World) (input : Reader) :
  let run := deleteAll address noMetrics w (start input) in
  let read := fst (ReadBytes "010"%byte input) in
  fst run <> Panic /\
  match snd read with
  | None =>
      0 < length (fst read) /\
      List.last (fst read) "000"%byte = "010"%byte
  | Some e =>
      e = failure input /\
      match newClient w address (negb noMetrics) "user" with
      | None => fst run = Ok (Some e)
      | Some e' => fst run = Ok (Some (errors_New (ErrorDesc e')))
      end
  end.
Proof.
  cbv zeta. unfold deleteAll, NewMetricsClientFromAddress, Printf,
    Stdin_ReadBytes, client_DeleteAll, emit, start.
  run_monad. cbn [stdin trace].
  destruct (newClient w address (negb noMetrics) "user") as [e'|]; cbn;
    destruct (ReadBytes "010"%byte input) as [[line [e|]] r'] eqn:R; cbn.
  - apply ReadBytes_err in R as (-> & -> & _). repeat split; congruence.
  - apply ReadBytes_ok in R as (body & -> & _).
    rewrite List.last_last, List.length_app. cbn.
    repeat split; [congruence | lia].
  - apply ReadBytes_err in R as (-> & -> & _). repeat split; congruence.
  - apply ReadBytes_ok in R as (body & -> & _).
    rewrite List.last_last, List.length_app. cbn.
    split; [|split; [lia | reflexivity]].
    destruct body as [|b body]; cbn;
      [|destruct (Byte.eqb b "y"%byte || Byte.eqb b "Y"%byte); cbn];
      congruence.
Qed.

End DeleteAllFacts.

(** ** port-forward *)

Section PortForwardFacts.
Import PortForward.
Variables (w : World) (f : Flags).

Lemma init_inv : Inv w f init.
Proof.
  constructor; cbn; try congruence; try tauto.
Qed.

Lemma step_inv a s s' : Inv w f s -> step w f a s = Some s' -> Inv w f s'.
Proof.
  intros [Hl Hwg Hon Hes Hen Hfi Hre] Hstep.
  assert (Hsame : forall t t', Task_eqb t t' = true -> t' = t)
    by (intros t t'; destruct t, t'; cbn; congruence).
  assert (Hrefl : forall t, Task_eqb t t = true)
    by (intros t; destruct t; reflexivity).
  destruct a as [|t|t]; cbn in Hstep.
  - destruct (pc s) as [t| | |r] eqn:Hpc.
    + inversion Hstep; subst s'; clear Hstep.
      pose proof (Hl Pachd) as HP. pose proof (Hl DashUI) as HU.
      pose proof (Hl DashWebsocket) as HW.
      constructor; cbn.
      * intros t'. unfold setStatus.
        destruct t, t'; cbn in *; intuition congruence.
      * unfold setStatus. rewrite Hwg.
        destruct t; cbn in *;
          destruct (status s Pachd), (status s DashUI), (status s DashWebsocket);
          cbn in *; intuition (try congruence; try lia).
      * assumption.
      * intros e He. destruct (Hes e He) as (t' & x & Hf & Hx & Hr).
        exists t', x. repeat split; auto. unfold setStatus.
        destruct (Task_eqb t t') eqn:Heq; [|assumption].
        apply Hsame in Heq; subst t'.
        destruct t; cbn in *; intuition congruence.
      * intros He t' x. unfold setStatus.
        destruct (Task_eqb t t'); [discriminate|]. eauto.
      * intros t'. unfold setStatus.
        destruct (Task_eqb t t'); [discriminate|]. eauto.
      * intros r. destruct t; discriminate.
    + inversion Hstep; subst s'; clear Hstep.
      constructor; cbn.
      * intros t. rewrite Hl. destruct t; reflexivity.
      * assumption.
      * assumption.
      * assumption.
      * assumption.
      * intros t Ht. destruct (Hfi t Ht) as (x & Hx & Hin).
        exists x. split; [assumption|]. apply in_or_app. auto.
      * discriminate.
    + destruct (Nat.eqb (wg (eg s)) 0) eqn:Hz; [|discriminate].
      inversion Hstep; subst s'; clear Hstep.
      apply Nat.eqb_eq in Hz.
      constructor; cbn.
      * intros t. rewrite Hl. destruct t; reflexivity.
      * assumption.
      * assumption.
      * assumption.
      * assumption.
      * assumption.
      * intros r Hr. inversion Hr; subst r. split; [reflexivity|].
        intros t. pose proof (Hl Pachd) as HP. pose proof (Hl DashUI) as HU.
        pose proof (Hl DashWebsocket) as HW.
        rewrite Hz in Hwg.
        destruct t;
          destruct (status s Pachd), (status s DashUI), (status s DashWebsocket);
          cbn in *; try lia; try reflexivity; intuition congruence.
    + discriminate.
  - destruct (status s t) eqn:Hst; try discriminate.
    inversion Hstep; subst s'; clear Hstep.
    constructor; cbn.
    + intros t'. rewrite <- Hl. unfold setStatus.
      destruct (Task_eqb t t') eqn:Heq; [|tauto].
      apply Hsame in Heq; subst t'. rewrite Hst. intuition congruence.
    + rewrite Hwg. unfold setStatus.
      destruct t; cbn; rewrite Hst; reflexivity.
    + assumption.
    + intros e He. destruct (Hes e He) as (t' & x & Hf & Hx & Hr).
      exists t', x. repeat split; auto. unfold setStatus.
      destruct (Task_eqb t t') eqn:Heq; [|assumption].
      apply Hsame in Heq; subst t'. congruence.
    + intros He t' x. unfold setStatus.
      destruct (Task_eqb t t'); [discriminate|]. eauto.
    + intros t'. unfold setStatus.
      destruct (Task_eqb t t'); [discriminate|].
      intros Ht. destruct (Hfi t' Ht) as (x & Hx & Hin).
      exists x. split; [assumption|]. apply in_or_app. auto.
    + intros r Hr. destruct (Hre r Hr) as [_ Hall]. congruence.
  - destruct (status s t) eqn:Hst; try discriminate.
    destruct (exitOf w f t) as [|runErr] eqn:Hex; [discriminate|].
    inversion Hstep; subst s'; clear Hstep.
    constructor; cbn.
    + intros t'. rewrite <- Hl. unfold setStatus.
      destruct (Task_eqb t t') eqn:Heq; [|tauto].
      apply Hsame in Heq; subst t'. rewrite Hst. intuition congruence.
    + unfold goroutineExit, errOnceDo, setStatus.
      destruct (taskReturn t runErr), (errOnce (eg s)); cbn; rewrite Hwg;
        destruct t; cbn; rewrite Hst; cbn; lia.
    + unfold goroutineExit, errOnceDo.
      destruct (taskReturn t runErr), (errOnce (eg s)) eqn:Ho; cbn;
        rewrite ?Ho; auto; congruence.
    + intros e. unfold goroutineExit, errOnceDo, setStatus.
      destruct (taskReturn t runErr) as [e0|] eqn:Hr0;
        [destruct (errOnce (eg s)) eqn:Ho|]; cbn.
      * intros He. destruct (Hes e He) as (t' & x & Hf & Hx & Hr).
        exists t', x. destruct (Task_eqb t t'); auto.
      * intros He; inversion He; subst e0. exists t, runErr.
        rewrite Hrefl. auto.
      * intros He. destruct (Hes e He) as (t' & x & Hf & Hx & Hr).
        exists t', x. destruct (Task_eqb t t'); auto.
    + unfold goroutineExit, errOnceDo, setStatus.
      destruct (taskReturn t runErr) as [e0|] eqn:Hr0;
        [destruct (errOnce (eg s)) eqn:Ho|]; cbn.
      * intros He. exfalso. exact (Hon eq_refl He).
      * discriminate.
      * intros He t' x.
        destruct (Task_eqb t t') eqn:Heq; [|eauto].
        apply Hsame in Heq; subst t'. intros _ Hx. congruence.
    + intros t'. unfold setStatus.
      destruct (Task_eqb t t') eqn:Heq.
      * apply Hsame in Heq; subst t'. intros _. exists runErr.
        split; [assumption|]. apply in_or_app. right. left. reflexivity.
      * intros Ht. destruct (Hfi t' Ht) as (x & Hx & Hin).
        exists x. split; [assumption|]. apply in_or_app. auto.
    + intros r Hr. destruct (Hre r Hr) as [_ Hall]. congruence.
Qed.

Lemma exec_inv sched : forall s s',
  Inv w f s -> exec w f sched s = Some s' -> Inv w f s'.
Proof.
  induction sched as [|a rest IH]; intros s s' Hs; cbn.
  - intros H; inversion H; subst; assumption.
  - destruct (step w f a s) as [s1|] eqn:Hstep; [|discriminate].
    eauto using step_inv.
Qed.

Lemma reachable_inv sched s : exec w f sched init = Some s -> Inv w f s.
Proof. apply exec_inv, init_inv. Qed.

(** What the closure returns, read off the way the subprocesses of the
    pachd task and of the dashboard-UI task ended. *)
Lemma returned_result sched s r :
  exec w f sched init = Some s -> pc s = Returned r ->
  (forall t, exists runErr, exitOf w f t = Exits runErr /\
             In (EvReturn t (taskReturn t runErr)) (trace s)) /\
  match r with
  | None => exitOf w f Pachd = Exits None /\ exitOf w f DashUI = Exits None
  | Some e =>
      exitOf w f Pachd = Exits (Some e) \/
      (e = uiNotEnabled /\ exists e', exitOf w f DashUI = Exits (Some e'))
  end.
Proof.
  intros Hex Hpc. apply reachable_inv in Hex.
  destruct Hex as [_ _ _ Hes Hen Hfi Hre].
  destruct (Hre r Hpc) as [-> Hall].
  split; [intros t; apply Hfi, Hall|].
  destruct (err (eg s)) as [e|] eqn:He.
  - destruct (Hes e eq_refl) as (t & x & _ & Hx & Hr).
    destruct t; cbn in Hr.
    + left. congruence.
    + right. destruct x as [e'|]; [|discriminate].
      split; [congruence | eauto].
    + discriminate.
  - destruct (Hfi Pachd (Hall _)) as (xp & Hxp & _).
    destruct (Hfi DashUI (Hall _)) as (xu & Hxu & _).
    pose proof (Hen eq_refl Pachd xp (Hall _) Hxp) as HP.
    pose proof (Hen eq_refl DashUI xu (Hall _) Hxu) as HU.
    cbn in HP, HU. subst xp. destruct xu; [discriminate|]. auto.
Qed.

(** [eg.Wait] is not enabled while a goroutine is outstanding. *)
Lemma wait_blocks sched s t :
  exec w f sched init = Some s -> pc s = Waiting ->
  status s t <> Finished -> step w f Main s = None.
Proof.
  intros Hex Hpc Ht. apply reachable_inv in Hex.
  destruct Hex as [Hl Hwg _ _ _ _ _].
  pose proof (Hl Pachd) as HP. pose proof (Hl DashUI) as HU.
  pose proof (Hl DashWebsocket) as HW. rewrite Hpc in HP, HU, HW.
  cbn [step]. rewrite Hpc, Hwg.
  destruct t;
    destruct (status s Pachd), (status s DashUI), (status s DashWebsocket);
    cbn in *; try reflexivity; intuition congruence.
Qed.

Lemma inOrder_returns :
  (forall t, exists runErr, exitOf w f t = Exits runErr) ->
  exists r, returns w f inOrder r.
Proof.
  intros Hall.
  destruct (Hall Pachd) as (xp & Hp). destruct (Hall DashUI) as (xu & Hu).
  destruct (Hall DashWebsocket) as (xw & Hw).
  unfold returns, inOrder. cbn. rewrite Hp. cbn. rewrite Hu. cbn. rewrite Hw.
  unfold goroutineExit, errOnceDo.
  destruct xp, xu; cbn; eauto.
Qed.

End PortForwardFacts.


Section PortForwardClaims.
Import PortForward.
(** C1, as stated, fails. When only the dashboard-UI forward fails, the
    command fails; and when all three forwards fail and the dashboard-UI
    one exits first, the error of the command is the one the dashboard-UI
    task returned. *)
Lemma ui_failure_fails_port_forward :
  (let w := worldOf defaultFlags (Exits None) (Exits (Some exitStatus1))
                    (Exits None) in
   exitOf w defaultFlags Pachd = Exits None /\
   exitOf w defaultFlags DashUI = Exits (Some exitStatus1) /\
   pc <$> exec w defaultFlags inOrder init
   = Some (Returned (Some uiNotEnabled))) /\
  (let w := worldOf defaultFlags (Exits (Some exitStatus1))
                    (Exits (Some exitStatus1)) (Exits (Some exitStatus1)) in
   exitOf w defaultFlags Pachd = Exits (Some exitStatus1) /\
   pc <$> exec w defaultFlags uiFirst init
   = Some (Returned (Some uiNotEnabled))).
Proof. vm_compute. repeat split. Qed.

(** C1, amended: in every run of port-forward that returns, the way the
    dashboard-websocket forward ends has no part in the result. The result
    is success exactly when the pachd forward and the dashboard-UI forward
    both ended without error. A failure of the dashboard-UI forward does
    fail the command; the error returned is either the error of the pachd
    forward or the fixed error "UI not enabled, deploy with --dashboard"
    that stands for any failure of the dashboard-UI forward. So when all
    three forwards fail the result is a failure, and it is one of these
    two errors. *)
Theorem port_forward_failure_classes (w : World) (f : Flags)
    (sched : list Action) (r : option error) :
  returns w f sched r ->
  (exitOf w f Pachd = Exits None -> exitOf w f DashUI = Exits None ->
   r = None) /\
  ((exists e, exitOf w f DashUI = Exits (Some e)) -> r <> None) /\
  ((exists e, exitOf w f Pachd = Exits (Some e)) -> r <> None) /\
  (forall e, r = Some e ->
     exitOf w f Pachd = Exits (Some e) \/
     (e = uiNotEnabled /\ exists e', exitOf w f DashUI = Exits (Some e'))).
Proof.
  intros (s & Hex & Hpc).
  destruct (returned_result w f sched s r Hex Hpc) as [_ Hr].
  destruct r as [e|].
  - repeat split; try discriminate.
    + intros HP HU. destruct Hr as [H|(_ & e' & H)]; congruence.
    + intros e0 H0. inversion H0; subst e0. exact Hr.
  - destruct Hr as [HP HU]. repeat split; try discriminate.
    + intros (e & He). congruence.
    + intros (e & He). congruence.
Qed.

(** The theorem at work: all three forwards fail one after the other, and
    the command fails. *)
Lemma port_forward_failure_classes_witness :
  let w := worldOf defaultFlags (Exits (Some exitStatus1))
                   (Exits (Some exitStatus1)) (Exits (Some exitStatus1)) in
  returns w defaultFlags inOrder (Some exitStatus1) /\
  Some exitStatus1 <> None.
Proof.
  cbv zeta.
  assert (H : returns
                (worldOf defaultFlags (Exits (Some exitStatus1))
                   (Exits (Some exitStatus1)) (Exits (Some exitStatus1)))
                defaultFlags inOrder (Some exitStatus1)).
  { eexists. split; vm_compute; reflexivity. }
  split; [exact H|].
  apply (port_forward_failure_classes _ _ _ _ H).
  exists exitStatus1. vm_compute. reflexivity.
Defined.

(** C7, as stated, fails: the pachd forward and the dashboard-UI forward
    fail, the dashboard-UI subprocess exits first, and the command returns
    the error of the dashboard-UI task, not the one of the pachd task. *)
Lemma required_error_can_be_masked :
  let pachdErr := errorString "exit status 2" in
  let w := worldOf defaultFlags (Exits (Some pachdErr))
                   (Exits (Some exitStatus1)) (Exits None) in
  exitOf w defaultFlags Pachd = Exits (Some pachdErr) /\
  pc <$> exec w defaultFlags uiFirst init
  = Some (Returned (Some uiNotEnabled)) /\
  Some uiNotEnabled <> Some pachdErr.
Proof. vm_compute. repeat split. discriminate. Qed.

(** C7, amended: port-forward blocks until every forward task has
    completed: [eg.Wait] cannot return while a goroutine is outstanding;
    when the command returns, every subprocess has exited and every task
    has returned; and when every subprocess exits, the command does
    return. With no failing task the result is success. With a failing
    pachd forward the result is a failure: the error of the pachd forward,
    or, when the dashboard-UI forward failed as well, possibly the fixed
    "UI not enabled" error instead; it is the error of the pachd forward
    whenever the dashboard-UI forward did not fail. *)
Theorem port_forward_waits (w : World) (f : Flags) :
  (forall sched s t,
     exec w f sched init = Some s -> pc s = Waiting ->
     status s t <> Finished -> step w f Main s = None) /\
  (forall sched s r,
     exec w f sched init = Some s -> pc s = Returned r ->
     (forall t, exists runErr,
        exitOf w f t = Exits runErr /\
        In (EvReturn t (taskReturn t runErr)) (trace s)) /\
     ((forall t, exitOf w f t = Exits None) -> r = None) /\
     (forall e, exitOf w f Pachd = Exits (Some e) ->
        r = Some e \/
        (r = Some uiNotEnabled /\
         exists e', exitOf w f DashUI = Exits (Some e'))) /\
     (forall e, exitOf w f Pachd = Exits (Some e) ->
        exitOf w f DashUI = Exits None -> r = Some e)) /\
  ((forall t, exists runErr, exitOf w f t = Exits runErr) ->
   exists sched r, returns w f sched r).
Proof.
  split; [|split].
  - intros sched s t. apply wait_blocks.
  - intros sched s r Hex Hpc.
    destruct (returned_result w f sched s r Hex Hpc) as [Hfin Hr].
    split; [exact Hfin|].
    destruct r as [e0|].
    + repeat split.
      * intros Hall. pose proof (Hall Pachd). pose proof (Hall DashUI).
        destruct Hr as [H1|(_ & e' & H1)]; congruence.
      * intros e He. destruct Hr as [H1|(-> & H1)]; [left|right]; auto.
        congruence.
      * intros e He Hu. destruct Hr as [H1|(_ & e' & H1)]; congruence.
    + destruct Hr as [HP HU]. repeat split; auto; intros; congruence.
  - intros Hall. exists inOrder. apply inOrder_returns, Hall.
Qed.

End PortForwardClaims.

(** ** migrate *)

Section MigrateFacts.
Import Migrate.

Ltac run_migrate :=
  unfold migrate, submit, resolveVersions, getVersionAPIClient,
    versionClient_GetVersion, ioutil_TempFile, encodeTo, tmpFile_Close,
    os_Remove, cmd_CombinedOutput, Println, emit, start in *;
  run_monad.

(** C2, as stated, fails: the error returned when the version query times
    out carries the text of the query's error, and the address of the
    server is not in it; and when no connection can be made for the
    address the error returned is the sanitized dial error, which does not
    ask for the from flag. *)
Lemma discover_error_does_not_name_address :
  (let run := migrate sampleCodec pachdAddress v_1_5_0 deadlineWorld noFlags
                (start ∅) in
   fst run = Ok (Some (errorString
     "unable to discover cluster version; please provide the --from flag.  Error: rpc error: code = 4 desc = context deadline exceeded")) /\
   Contains
     "unable to discover cluster version; please provide the --from flag.  Error: rpc error: code = 4 desc = context deadline exceeded"
     pachdAddress = false) /\
  (let run := migrate sampleCodec pachdAddress v_1_5_0 undialableWorld noFlags
                (start ∅) in
   fst run = Ok (Some (errorString "grpc: no transport security set")) /\
   Contains "grpc: no transport security set" "from" = false).
Proof. vm_compute. repeat split. Qed.

Section MigrateClaims.
Variable CodecEncodeSelf : JsonHandle -> Job -> list byte.

(** C2, amended: in every migrate invocation whose from flag is empty and
    whose live-version query fails with an error [e], the command returns
    the error "unable to discover cluster version; please provide the
    --from flag.  Error: " followed by the text of [e] (the command adds no
    server address to it); when already the connection for the address
    cannot be made, it returns the sanitized dial error. Either way no job
    is handed to the encoder, no temporary file is created, the file
    system is as before and the scheduler is not called. *)
Theorem migrate_discovery_failure (address : string) (own : Version)
    (w : World) (fl : Flags) (files : gmap string (list byte)) :
  from fl = "" ->
  (Dial w address <> None \/
   exists e, GetVersion w address time_Second = inl e) ->
  let run := migrate CodecEncodeSelf address own w fl (start files) in
  match Dial w address with
  | Some e =>
      fst run = Ok (Some (errors_New (ErrorDesc e))) /\
      trace (snd run) = [EvDial address]
  | None =>
      exists e, GetVersion w address time_Second = inl e /\
      fst run = Ok (Some (errorString
        ("unable to discover cluster version; please provide the --from flag.  Error: "
         +:+ Error e))) /\
      trace (snd run) = [EvDial address; EvGetVersion address time_Second]
  end /\
  encoded (trace (snd run)) = [] /\
  List.filter isArtifact (trace (snd run)) = [] /\
  submissions (trace (snd run)) = [] /\
  fs (snd run) = files.
Proof.
  intros Hfrom Hfail. cbv zeta. run_migrate. rewrite Hfrom. cbn.
  destruct (Dial w address) as [e|] eqn:HD; cbn.
  - repeat split.
  - destruct Hfail as [H|(e & He)]; [congruence|].
    rewrite He. cbn. repeat split. exists e. repeat split.
Qed.

(** C3: with both flags given, the versions the closure works with are
    the flags' values, unchanged, and resolving them calls nothing: neither
    a connection nor the version query appears in the run. *)
Theorem explicit_versions_are_kept (address : string) (own : Version)
    (w : World) (fl : Flags) (files : gmap string (list byte)) :
  from fl <> "" -> to fl <> "" ->
  resolveVersions address own w fl (start files)
  = (Ok (inr (from fl, to fl)), start files) /\
  List.filter isQuery
    (trace (snd (migrate CodecEncodeSelf address own w fl (start files)))) = [].
Proof.
  intros Hfrom Hto.
  apply String.eqb_neq in Hfrom. apply String.eqb_neq in Hto.
  run_migrate. rewrite Hfrom, Hto. cbn. split; [reflexivity|].
  destruct (TempFile w "" "") as [e|name]; cbn; [reflexivity|].
  destruct (CombinedOutput w _ _) as [out [e|]]; reflexivity.
Qed.

(** C5: once the versions are resolved to [from'] and [to'], the job the
    command goes on to submit is named "pach-migration", carries the one
    label suite=pachyderm, has one container whose image is
    "pachyderm/pachd:" followed by the client's own version and whose
    arguments end in the single flag "--migrate=from'-to'", and restarts
    "OnFailure". *)
Theorem job_description_fields (address : string) (own : Version)
    (w : World) (fl : Flags) (s s1 : Store) (from' to' : string) :
  resolveVersions address own w fl s = (Ok (inr (from', to')), s1) ->
  exists job,
    migrate CodecEncodeSelf address own w fl s
    = submit CodecEncodeSelf w job s1 /\
    Name (Job_ObjectMeta job) = "pach-migration" /\
    Labels (Job_ObjectMeta job) = {[ "suite" := "pachyderm" ]} /\
    List.map Image (Containers (PodTemplateSpec_Spec (Template (Job_Spec job))))
    = [ "pachyderm/pachd:" +:+ PrettyPrintVersion own ] /\
    List.map Command (Containers (PodTemplateSpec_Spec (Template (Job_Spec job))))
    = [ [ "/pachd"; "--migrate=" +:+ from' +:+ "-" +:+ to' ] ] /\
    RestartPolicy (PodTemplateSpec_Spec (Template (Job_Spec job))) = "OnFailure".
Proof.
  intros Hres. exists (jobSpec own from' to').
  split; [|repeat split].
  unfold migrate. run_monad. rewrite Hres. reflexivity.
Qed.


(** Resolving the versions touches neither the file system nor the
    encoder nor the scheduler. *)
Lemma resolveVersions_quiet (address : string) (own : Version) (w : World)
    (fl : Flags) (files : gmap string (list byte)) r (s1 : Store) :
  resolveVersions address own w fl (start files) = (r, s1) ->
  fs s1 = files /\ encoded (trace s1) = [] /\ artifacts (trace s1) = [] /\
  submissions (trace s1) = [].
Proof.
  run_migrate. cbn.
  destruct (String.eqb (from fl) ""); cbn.
  - destruct (Dial w address); cbn.
    + intros H; inversion H; subst; cbn. auto.
    + destruct (GetVersion w address time_Second); cbn;
        intros H; inversion H; subst; cbn; auto.
  - intros H; inversion H; subst; cbn. auto.
Qed.


(** C9: the namespace flag has no effect. Two runs of migrate that differ
    in it alone are the same run: the same result, the same events, hence
    the same job, the same file contents and the same scheduler command
    line. *)
Theorem namespace_is_ignored (address : string) (own : Version) (w : World)
    (from' to' namespace1 namespace2 : string) (s : Store) :
  let run1 := migrate CodecEncodeSelf address own w
                {| from := from'; to := to'; namespace := namespace1 |} s in
  let run2 := migrate CodecEncodeSelf address own w
                {| from := from'; to := to'; namespace := namespace2 |} s in
  run1 = run2 /\
  encoded (trace (snd run1)) = encoded (trace (snd run2)) /\
  artifacts (trace (snd run1)) = artifacts (trace (snd run2)) /\
  submissions (trace (snd run1)) = submissions (trace (snd run2)).
Proof.
  cbv zeta.
  assert (H : migrate CodecEncodeSelf address own w
                {| from := from'; to := to'; namespace := namespace1 |} s
              = migrate CodecEncodeSelf address own w
                {| from := from'; to := to'; namespace := namespace2 |} s)
    by reflexivity.
  rewrite H. repeat split.
Qed.

End MigrateClaims.

(** C4: with the to flag empty, the resolved to is the client's own
    version formatted as major.minor.micro, whenever resolution succeeds;
    it does succeed when the from flag is given; and with both flags
    empty, own version 1.5.0 and a cluster that reports 1.4.8, resolution
    yields from 1.4.8 and to 1.5.0. *)
Theorem to_defaults_to_own_version :
  (forall address own w fl s from' to' s1,
     to fl = "" ->
     resolveVersions address own w fl s = (Ok (inr (from', to')), s1) ->
     to' = PrettyPrintVersionNoAdditional own) /\
  (forall address own w fl s,
     to fl = "" -> from fl <> "" ->
     resolveVersions address own w fl s
     = (Ok (inr (from fl, PrettyPrintVersionNoAdditional own)), s)) /\
  resolveVersions pachdAddress v_1_5_0 liveWorld noFlags (start ∅)
  = (Ok (inr ("1.4.8", "1.5.0")),
     {| fs := ∅;
        trace := [ EvDial pachdAddress;
                   EvGetVersion pachdAddress time_Second ] |}).
Proof.
  split; [|split].
  - intros address own w fl s from' to' s1 Hto. run_migrate. rewrite Hto. cbn.
    destruct (String.eqb (from fl) ""); cbn.
    + destruct (Dial w address); cbn; [discriminate|].
      destruct (GetVersion w address time_Second); cbn; [discriminate|].
      intros H; inversion H; reflexivity.
    + intros H; inversion H; reflexivity.
  - intros address own w fl s Hto Hfrom. apply String.eqb_neq in Hfrom.
    run_migrate. rewrite Hto, Hfrom. reflexivity.
  - reflexivity.
Qed.

(** The theorem at work on a cluster whose version query times out. *)
Lemma migrate_discovery_failure_witness :
  let run := migrate sampleCodec pachdAddress v_1_5_0 deadlineWorld noFlags
               (start ∅) in
  from noFlags = "" /\ encoded (trace (snd run)) = [] /\
  List.filter isArtifact (trace (snd run)) = [].
Proof.
  cbv zeta. split; [reflexivity|].
  refine ((fun H => conj (proj1 (proj2 H)) (proj1 (proj2 (proj2 H))))
            (migrate_discovery_failure sampleCodec pachdAddress v_1_5_0
               deadlineWorld noFlags ∅ eq_refl _)).
  right. exists (rpcError 4 "context deadline exceeded"). reflexivity.
Defined.

(** The theorem at work: both flags given, on a cluster that would not
    answer. *)
Lemma explicit_versions_are_kept_witness :
  resolveVersions pachdAddress v_1_5_0 deadlineWorld explicitFlags (start ∅)
  = (Ok (inr ("1.4.8", "1.5.0")), start ∅).
Proof.
  apply (explicit_versions_are_kept sampleCodec pachdAddress v_1_5_0
           deadlineWorld explicitFlags ∅);
    vm_compute; discriminate.
Defined.

(** The theorem at work: versions discovered from the cluster. *)
Lemma job_description_fields_witness :
  exists job,
    migrate sampleCodec pachdAddress v_1_5_0 liveWorld noFlags (start ∅)
    = submit sampleCodec liveWorld job
        {| fs := ∅;
           trace := [ EvDial pachdAddress;
                      EvGetVersion pachdAddress time_Second ] |} /\
    List.map Command (Containers (PodTemplateSpec_Spec (Template (Job_Spec job))))
    = [ [ "/pachd"; "--migrate=1.4.8-1.5.0" ] ].
Proof.
  destruct (job_description_fields sampleCodec pachdAddress v_1_5_0 liveWorld
              noFlags (start ∅) _ "1.4.8" "1.5.0" eq_refl)
    as (job & Hm & _ & _ & _ & Hc & _).
  exists job. split; [exact Hm | exact Hc].
Defined.


End MigrateFacts.

(** * Further properties *)

(** ** port-forward: what a run leaves in its trace *)

Section PortForwardTraces.
Import PortForward.
Variables (w : World) (f : Flags).

Lemma firstError_app t u :
  firstError (t ++ u)
  = match firstError t with
    | Some e => Some e
    | None => firstError u
    end.
Proof.
  induction t as [|e t IH]; cbn; [destruct (firstError u); reflexivity|].
  destruct e as [| t0 [e0|] |]; cbn; auto.
Qed.

(** How the trace of a reachable state relates to the rest of it. *)
Record Obs (s : State) : Prop := {
  obs_once : err (eg s) <> None -> errOnce (eg s) = true;
  obs_err : err (eg s) = firstError (trace s);
  obs_printed :
    printed (trace s)
    = match pc s with
      | Waiting | Returned _ => [announcement f]
      | _ => []
      end;
  obs_started : exists order,
    NoDup order /\
    (forall t, t ∈ order <-> hasStarted (status s t) = true) /\
    started (trace s) = List.map (fun t => (ioOf f t, ["sh"])) order
}.

Lemma init_obs : Obs init.
Proof.
  constructor; cbn; try congruence.
  exists []. split; [constructor|]. split; [|reflexivity].
  intros t. split; [intros H; inversion H | discriminate].
Qed.

Lemma step_obs a s s' :
  Inv w f s -> Obs s -> step w f a s = Some s' -> Obs s'.
Proof.
  intros [Hl _ Hon _ _ _ _] [J1 J2 J3 (order & Hnd & Hin & Hst)] Hstep.
  assert (Hsame : forall t t', Task_eqb t t' = true -> t' = t)
    by (intros t t'; destruct t, t'; cbn; congruence).
  assert (Hrefl : forall t, Task_eqb t t = true)
    by (intros t; destruct t; reflexivity).
  destruct a as [|t|t]; cbn in Hstep.
  - destruct (pc s) as [t| | |r] eqn:Hpc.
    + inversion Hstep; subst s'; clear Hstep.
      assert (Ht : status s t = NotStarted)
        by (apply Hl; destruct t; reflexivity).
      constructor; cbn [pc eg status trace]; try assumption.
      * rewrite J3. destruct t; reflexivity.
      * exists order. repeat split; try assumption.
        -- intros Hm. apply Hin in Hm. unfold setStatus.
           destruct (Task_eqb t t0) eqn:Heq; [|assumption].
           apply Hsame in Heq; subst t0. rewrite Ht in Hm. discriminate.
        -- unfold setStatus. destruct (Task_eqb t t0); [discriminate|].
           apply Hin.
    + inversion Hstep; subst s'; clear Hstep.
      constructor; cbn [pc eg status trace]; try assumption.
      * rewrite firstError_app, <- J2. destruct (err (eg s)); reflexivity.
      * unfold printed in *. rewrite List.flat_map_app, J3. reflexivity.
      * exists order. repeat split; try apply Hin; try assumption.
        unfold started in *. rewrite List.flat_map_app, Hst. cbn.
        apply List.app_nil_r.
    + destruct (Nat.eqb (wg (eg s)) 0); [|discriminate].
      inversion Hstep; subst s'; clear Hstep.
      constructor; cbn [pc eg status trace]; try assumption.
      exists order. repeat split; try apply Hin; assumption.
    + discriminate.
  - destruct (status s t) eqn:Ht; try discriminate.
    inversion Hstep; subst s'; clear Hstep.
    constructor; cbn [pc eg status trace]; try assumption.
    + rewrite firstError_app, <- J2. destruct (err (eg s)); reflexivity.
    + unfold printed in *. rewrite List.flat_map_app, J3. cbn.
      apply List.app_nil_r.
    + exists (order ++ [t]). split; [|split].
      * apply NoDup_app. split; [assumption|]. split; [|apply NoDup_singleton].
        intros x Hx Hx'. apply list_elem_of_singleton in Hx'; subst x.
        apply Hin in Hx. rewrite Ht in Hx. discriminate.
      * intros t0. rewrite elem_of_app, list_elem_of_singleton, Hin.
        unfold setStatus. destruct (Task_eqb t t0) eqn:Heq.
        -- apply Hsame in Heq; subst t0. cbn. tauto.
        -- split; [intros [H| ->]; [assumption|]|tauto].
           rewrite Hrefl in Heq. discriminate.
      * unfold started in *. rewrite List.flat_map_app, Hst, List.map_app.
        reflexivity.
  - destruct (status s t) eqn:Ht; try discriminate.
    destruct (exitOf w f t) as [|runErr]; [discriminate|].
    inversion Hstep; subst s'; clear Hstep.
    constructor; cbn [pc eg status trace].
    + unfold goroutineExit, errOnceDo.
      destruct (taskReturn t runErr); [destruct (errOnce (eg s)) eqn:Ho|];
        cbn; rewrite ?Ho; auto.
    + rewrite firstError_app, <- J2. unfold goroutineExit, errOnceDo.
      destruct (taskReturn t runErr) as [e|];
        [destruct (errOnce (eg s)) eqn:Ho|]; cbn.
      * destruct (err (eg s)) eqn:He; [reflexivity|].
        exfalso. exact (Hon eq_refl eq_refl).
      * destruct (err (eg s)) eqn:He; [|reflexivity].
        assert (false = true) by (apply J1; congruence). congruence.
      * destruct (err (eg s)); reflexivity.
    + unfold printed in *. rewrite List.flat_map_app, J3. cbn.
      apply List.app_nil_r.
    + exists order. split; [assumption|]. split.
      * intros t0. rewrite Hin. unfold setStatus.
        destruct (Task_eqb t t0) eqn:Heq; [|tauto].
        apply Hsame in Heq; subst t0. rewrite Ht. cbn. tauto.
      * unfold started in *. rewrite List.flat_map_app, Hst. cbn.
        apply List.app_nil_r.
Qed.

Lemma exec_obs sched : forall s s',
  Inv w f s -> Obs s -> exec w f sched s = Some s' -> Inv w f s' /\ Obs s'.
Proof.
  induction sched as [|a rest IH]; intros s s' Hi Ho; cbn.
  - intros H; inversion H; subst; auto.
  - destruct (step w f a s) as [s1|] eqn:Hstep; [|discriminate].
    apply IH; eauto using step_inv, step_obs.
Qed.

Lemma reachable_obs sched s :
  exec w f sched init = Some s -> Inv w f s /\ Obs s.
Proof. apply exec_obs; [apply init_inv | apply init_obs]. Qed.

End PortForwardTraces.

Section PortForwardProgress.
Import PortForward.
Variables (w : World) (f : Flags).

Lemma exec_app a b s :
  exec w f (a ++ b) s
  = match exec w f a s with
    | Some s1 => exec w f b s1
    | None => None
    end.
Proof.
  revert s. induction a as [|x a IH]; intros s; cbn; [reflexivity|].
  destruct (step w f x s); auto.
Qed.

(** The closure can always go on to [eg.Wait]. *)
Lemma main_reaches_wait s :
  (forall r, pc s <> Returned r) ->
  exists mains s1, exec w f mains s = Some s1 /\ pc s1 = Waiting.
Proof.
  intros Hnr. destruct s as [p g st tr]; cbn in Hnr.
  destruct p as [[| |]| | |r].
  - exists [Main; Main; Main; Main]. eexists. split; reflexivity.
  - exists [Main; Main; Main]. eexists. split; reflexivity.
  - exists [Main; Main]. eexists. split; reflexivity.
  - exists [Main]. eexists. split; reflexivity.
  - exists []. eexists. split; reflexivity.
  - destruct (Hnr r eq_refl).
Qed.

(** A goroutine whose subprocess exits can always run to its end. *)
Lemma task_can_finish s t :
  pc s = Waiting -> status s t <> NotStarted ->
  (exists runErr, exitOf w f t = Exits runErr) ->
  exists sched s1,
    exec w f sched s = Some s1 /\ pc s1 = Waiting /\
    status s1 t = Finished /\
    (forall t', status s t' = Finished -> status s1 t' = Finished).
Proof.
  intros Hpc Hns (x & Hx).
  assert (Hrefl : Task_eqb t t = true) by (destruct t; reflexivity).
  destruct (status s t) eqn:Ht; [congruence| | |].
  - exists [Start t; Finish t]. eexists. cbn [exec step]. rewrite Ht.
    cbn [exec step status]. unfold setStatus at 1. rewrite Hrefl, Hx.
    split; [reflexivity|]. cbn [pc status]. split; [assumption|].
    unfold setStatus. rewrite Hrefl. split; [reflexivity|].
    intros t' Ht'. destruct (Task_eqb t t'); auto.
  - exists [Finish t]. eexists. cbn [exec step]. rewrite Ht, Hx.
    split; [reflexivity|]. cbn [pc status]. split; [assumption|].
    unfold setStatus. rewrite Hrefl. split; [reflexivity|].
    intros t' Ht'. destruct (Task_eqb t t'); auto.
  - exists []. eexists. cbn. split; [reflexivity|]. auto.
Qed.

Lemma can_return_from s :
  Inv w f s ->
  (forall t, exists runErr, exitOf w f t = Exits runErr) ->
  exists rest s' r, exec w f rest s = Some s' /\ pc s' = Returned r.
Proof.
  intros Hinv Hall.
  destruct (pc s) as [t| | |r] eqn:Hpc;
    [| | |exists [], s, r; split; [reflexivity | assumption]].
  all: destruct (main_reaches_wait s) as (mains & s1 & He1 & Hp1);
    [intros r; congruence|].
  all: pose proof (exec_inv w f mains s s1 Hinv He1) as Hi1.
  all: assert (Hl1 : forall t, status s1 t <> NotStarted)
    by (intros t0 H0; apply (inv_launched w f s1 Hi1) in H0;
        rewrite Hp1 in H0; destruct t0; discriminate).
  all: destruct (task_can_finish s1 Pachd Hp1 (Hl1 _) (Hall _))
    as (c2 & s2 & He2 & Hp2 & Hf2 & Hk2).
  all: pose proof (exec_inv w f c2 s1 s2 Hi1 He2) as Hi2.
  all: assert (Hl2 : forall t, status s2 t <> NotStarted)
    by (intros t0 H0; apply (inv_launched w f s2 Hi2) in H0;
        rewrite Hp2 in H0; destruct t0; discriminate).
  all: destruct (task_can_finish s2 DashUI Hp2 (Hl2 _) (Hall _))
    as (c3 & s3 & He3 & Hp3 & Hf3 & Hk3).
  all: pose proof (exec_inv w f c3 s2 s3 Hi2 He3) as Hi3.
  all: assert (Hl3 : forall t, status s3 t <> NotStarted)
    by (intros t0 H0; apply (inv_launched w f s3 Hi3) in H0;
        rewrite Hp3 in H0; destruct t0; discriminate).
  all: destruct (task_can_finish s3 DashWebsocket Hp3 (Hl3 _) (Hall _))
    as (c4 & s4 & He4 & Hp4 & Hf4 & Hk4).
  all: pose proof (exec_inv w f c4 s3 s4 Hi3 He4) as Hi4.
  all: assert (Hwg : wg (eg s4) = 0)
    by (rewrite (inv_wg w f s4 Hi4), Hf4, (Hk4 _ Hf3), (Hk4 _ (Hk3 _ Hf2));
        reflexivity).
  all: exists (mains ++ c2 ++ c3 ++ c4 ++ [Main]).
  all: eexists; exists (err (eg s4)).
  all: rewrite exec_app, He1, exec_app, He2, exec_app, He3, exec_app, He4.
  all: cbn; rewrite Hp4, Hwg; cbn; split; reflexivity.
Qed.

End PortForwardProgress.

Section PortForwardExtras.
Import PortForward.

(** X1: the error port-forward returns is the error of the first task to
    return one, in the order the tasks returned; it returns no error when
    no task returned one. *)
Theorem port_forward_first_error_wins (w : World) (f : Flags)
    (sched : list Action) (s : State) (r : option error) :
  exec w f sched init = Some s -> pc s = Returned r ->
  r = firstError (trace s).
Proof.
  intros Hex Hpc. destruct (reachable_obs w f sched s Hex) as [Hi Ho].
  destruct (inv_returned w f s Hi r Hpc) as [-> _].
  apply (obs_err f s Ho).
Qed.

(** The theorem at work: pachd and the dashboard UI both fail, the
    dashboard UI first. *)
Lemma port_forward_first_error_wins_witness :
  exists s,
    exec (worldOf defaultFlags (Exits (Some (errorString "exit status 2")))
            (Exits (Some exitStatus1)) (Exits None))
         defaultFlags uiFirst init = Some s /\
    Some uiNotEnabled = firstError (trace s).
Proof.
  assert (H : exists s,
             exec (worldOf defaultFlags
                     (Exits (Some (errorString "exit status 2")))
                     (Exits (Some exitStatus1)) (Exits None))
                  defaultFlags uiFirst init = Some s /\
             pc s = Returned (Some uiNotEnabled)).
  { eexists. split; vm_compute; reflexivity. }
  destruct H as (s & Hex & Hpc). exists s. split; [exact Hex|].
  exact (port_forward_first_error_wins _ _ _ _ _ Hex Hpc).
Defined.

(** X2: port-forward never starts more than three subprocesses, and a run
    that returns has started exactly three: [sh] once for each task, fed
    the script of that task. *)
Theorem port_forward_starts_each_task_once (w : World) (f : Flags)
    (sched : list Action) (s : State) :
  exec w f sched init = Some s ->
  length (started (trace s)) <= 3 /\
  (forall r, pc s = Returned r ->
     exists order, Permutation order allTasks /\
       started (trace s) = List.map (fun t => (ioOf f t, ["sh"])) order).
Proof.
  intros Hex. destruct (reachable_obs w f sched s Hex) as [Hi Ho].
  destruct (obs_started f s Ho) as (order & Hnd & Hin & Hst).
  assert (Hall : forall t : Task, t ∈ allTasks)
    by (intros t; apply list_elem_of_In; destruct t; cbn; auto).
  split.
  - rewrite Hst, List.length_map.
    change 3 with (length allTasks).
    apply submseteq_length, NoDup_submseteq; auto.
  - intros r Hpc. destruct (inv_returned w f s Hi r Hpc) as [_ Hfin].
    exists order. split; [|assumption].
    apply NoDup_Permutation; [assumption| |].
    + unfold allTasks.
      repeat (apply NoDup_cons; split); try apply NoDup_nil_2;
        rewrite list_elem_of_In; cbn; intuition discriminate.
    + intros t. split; [auto|]. intros _. apply Hin. rewrite Hfin. reflexivity.
Qed.

Lemma port_forward_starts_each_task_once_witness :
  exists s,
    exec (worldOf defaultFlags (Exits None) (Exits None) (Exits None))
         defaultFlags uiFirst init = Some s /\
    length (started (trace s)) <= 3.
Proof.
  assert (H : exists s,
             exec (worldOf defaultFlags (Exits None) (Exits None) (Exits None))
                  defaultFlags uiFirst init = Some s).
  { eexists. vm_compute. reflexivity. }
  destruct H as (s & Hex). exists s. split; [exact Hex|].
  exact (proj1 (port_forward_starts_each_task_once _ _ _ _ Hex)).
Defined.

(** X3: a run of port-forward that returns has printed the "port
    forwarded" announcement exactly once and nothing else, whatever became
    of the three forwards. *)
Theorem port_forward_announces_once (w : World) (f : Flags)
    (sched : list Action) (s : State) (r : option error) :
  exec w f sched init = Some s -> pc s = Returned r ->
  printed (trace s) = [announcement f].
Proof.
  intros Hex Hpc. destruct (reachable_obs w f sched s Hex) as [_ Ho].
  rewrite (obs_printed f s Ho), Hpc. reflexivity.
Qed.

Lemma port_forward_announces_once_witness :
  exists s,
    exec (worldOf defaultFlags (Exits (Some exitStatus1))
            (Exits (Some exitStatus1)) (Exits (Some exitStatus1)))
         defaultFlags inOrder init = Some s /\
    printed (trace s) = [announcement defaultFlags].
Proof.
  assert (H : exists s,
             exec (worldOf defaultFlags (Exits (Some exitStatus1))
                     (Exits (Some exitStatus1)) (Exits (Some exitStatus1)))
                  defaultFlags inOrder init = Some s /\
             pc s = Returned (Some exitStatus1)).
  { eexists. split; vm_compute; reflexivity. }
  destruct H as (s & Hex & Hpc). exists s. split; [exact Hex|].
  exact (port_forward_announces_once _ _ _ _ _ Hex Hpc).
Defined.

(** X4: port-forward cannot get stuck: when every subprocess exits, any
    run so far can be continued to one in which the command returns. *)
Theorem port_forward_can_always_return (w : World) (f : Flags)
    (sched : list Action) (s : State) :
  (forall t, exists runErr, exitOf w f t = Exits runErr) ->
  exec w f sched init = Some s ->
  exists rest s' r, exec w f (sched ++ rest) init = Some s' /\
                    pc s' = Returned r.
Proof.
  intros Hall Hex.
  destruct (can_return_from w f s (reachable_inv w f sched s Hex) Hall)
    as (rest & s' & r & Hr & Hpc).
  exists rest, s', r. rewrite exec_app, Hex. auto.
Qed.

Lemma port_forward_can_always_return_witness :
  exists rest s' r,
    exec (worldOf defaultFlags (Exits None) (Exits (Some exitStatus1))
            (Exits None))
         defaultFlags ([Main; Main; Start Pachd; Start DashUI; Finish DashUI]
                       ++ rest) init = Some s' /\
    pc s' = Returned r.
Proof.
  assert (H : exists s,
             exec (worldOf defaultFlags (Exits None) (Exits (Some exitStatus1))
                     (Exits None))
                  defaultFlags
                  [Main; Main; Start Pachd; Start DashUI; Finish DashUI] init
             = Some s).
  { eexists. vm_compute. reflexivity. }
  destruct H as (s & Hex).
  refine (port_forward_can_always_return _ _ _ s _ Hex).
  intros t. destruct t; eexists; vm_compute; reflexivity.
Defined.

End PortForwardExtras.

(** ** migrate: the temporary file, the cluster, the scheduler *)

Section MigrateExtras.
Import Migrate.
Variable CodecEncodeSelf : JsonHandle -> Job -> list byte.

Ltac run_migrate' :=
  unfold migrate, submit, resolveVersions, getVersionAPIClient,
    versionClient_GetVersion, ioutil_TempFile, encodeTo, tmpFile_Close,
    os_Remove, cmd_CombinedOutput, Println, emit, start in *;
  run_monad.

(** What [submit] leaves behind once the temporary file exists. *)
Lemma submit_store (w : World) (job : Job) (s : Store) (name : string) :
  TempFile w "" "" = inr name ->
  let run := submit CodecEncodeSelf w job s in
  fs (snd run) = delete name (fs s) /\
  List.last (trace (snd run)) (EvRemove "") = EvRemove name /\
  fst run
  = Ok (snd (CombinedOutput w
               [ "kubectl"; "create"; "--validate=false"; "-f"; name ]
               (<[ name := CodecEncodeSelf jsonEncoderHandle job ]> (fs s)))).
Proof.
  intros Htmp. cbv zeta. run_migrate'. rewrite Htmp. cbn.
  assert (Hfs : alter (fun old => old ++ CodecEncodeSelf jsonEncoderHandle job)
                  name (<[ name := [] ]> (fs s))
                = <[ name := CodecEncodeSelf jsonEncoderHandle job ]> (fs s)).
  { apply map_eq. intros k. destruct (decide (name = k)) as [->|Hne].
    - rewrite lookup_alter_eq, !lookup_insert_eq. reflexivity.
    - rewrite lookup_alter_ne, !lookup_insert_ne by assumption. reflexivity. }
  rewrite Hfs.
  destruct (CombinedOutput w _ _) as [out [e|]]; cbn;
    rewrite List.last_last, delete_insert_eq; auto.
Qed.

(** X5: migrate leaves no temporary file behind. Given that the name
    [ioutil.TempFile] hands out is that of a new file, the files after the
    run are the files before it, on every path: resolution failed, the
    scheduler failed, or the job was launched. And whenever a temporary
    file was created, removing it is the last thing the command does. *)
Theorem migrate_leaves_no_temp_file (address : string) (own : Version)
    (w : World) (fl : Flags) (files : gmap string (list byte)) :
  (forall name, TempFile w "" "" = inr name -> files !! name = None) ->
  let run := migrate CodecEncodeSelf address own w fl (start files) in
  fs (snd run) = files /\
  (forall name, TempFile w "" "" = inr name ->
     List.filter isArtifact (trace (snd run)) <> [] ->
     List.last (trace (snd run)) (EvRemove "") = EvRemove name).
Proof.
  intros Hfresh. cbv zeta.
  destruct (resolveVersions address own w fl (start files))
    as [[[retErr|[from' to']]|] s1] eqn:Hres.
  - assert (Hm : migrate CodecEncodeSelf address own w fl (start files)
                 = (Ok retErr, s1))
      by (unfold migrate; run_monad; rewrite Hres; reflexivity).
    rewrite Hm. cbn [snd].
    split; [exact (proj1 (resolveVersions_quiet _ _ _ _ _ _ _ Hres))|].
    intros name _ Hart. exfalso. apply Hart. clear Hart Hm.
    revert Hres. run_migrate'. cbn.
    destruct (String.eqb (from fl) ""); cbn.
    + destruct (Dial w address); cbn.
      * intros H; inversion H; reflexivity.
      * destruct (GetVersion w address time_Second); cbn;
          intros H; inversion H; reflexivity.
    + intros H; inversion H; reflexivity.
  - assert (Hm : migrate CodecEncodeSelf address own w fl (start files)
                 = submit CodecEncodeSelf w (jobSpec own from' to') s1)
      by (unfold migrate; run_monad; rewrite Hres; reflexivity).
    rewrite Hm.
    destruct (resolveVersions_quiet _ _ _ _ _ _ _ Hres) as (Hfs & _).
    destruct (TempFile w "" "") as [e|name] eqn:Htmp.
    + split; [|intros name H; discriminate].
      unfold submit, ioutil_TempFile. run_monad. rewrite Htmp. cbn. exact Hfs.
    + destruct (submit_store w (jobSpec own from' to') s1 name Htmp)
        as (Hfs' & Hlast & _).
      split.
      * rewrite Hfs', Hfs. apply delete_id, Hfresh. reflexivity.
      * intros name' Hn' _. inversion Hn'; subst name'. exact Hlast.
  - exfalso. revert Hres. run_migrate'. cbn.
    destruct (String.eqb (from fl) ""); cbn; [|discriminate].
    destruct (Dial w address); cbn; [discriminate|].
    destruct (GetVersion w address time_Second); discriminate.
Qed.

(** X6: migrate contacts the cluster exactly when the from flag is empty,
    whatever the to flag holds. *)
Theorem migrate_contacts_cluster_iff_from_empty (address : string)
    (own : Version) (w : World) (fl : Flags)
    (files : gmap string (list byte)) :
  List.filter isQuery
    (trace (snd (migrate CodecEncodeSelf address own w fl (start files)))) = []
  <-> from fl <> "".
Proof.
  rewrite <- String.eqb_neq. run_migrate'. cbn.
  destruct (String.eqb (from fl) ""); cbn.
  - split; [|discriminate]. intros H. exfalso. revert H.
    destruct (Dial w address); cbn; [discriminate|].
    destruct (GetVersion w address time_Second); cbn; [discriminate|].
    destruct (TempFile w "" ""); cbn; [discriminate|].
    destruct (CombinedOutput w _ _) as [out [e|]]; discriminate.
  - split; [reflexivity|]. intros _.
    destruct (TempFile w "" "") as [e|name]; cbn; [reflexivity|].
    destruct (CombinedOutput w _ _) as [out [e|]]; reflexivity.
Qed.


End MigrateExtras.

Section MigrateExtrasWitnesses.
Import Migrate.

Lemma migrate_leaves_no_temp_file_witness :
  fs (snd (migrate sampleCodec pachdAddress v_1_5_0 liveWorld noFlags
             (start ∅))) = ∅.
Proof.
  apply (migrate_leaves_no_temp_file sampleCodec pachdAddress v_1_5_0
           liveWorld noFlags ∅).
  intros name _. apply lookup_empty.
Defined.


End MigrateExtrasWitnesses.

(** ** version *)

Section VersionExtras.
Import VersionCmd.
Variable tabwriter : string -> string.

Ltac run_version :=
  unfold versionCmd, versionBody, printVersionHeader, printVersion,
    writer_Flush, liftNet, emit, start, Migrate.getVersionAPIClient,
    Migrate.versionClient_GetVersion, Migrate.emit, Migrate.start in *;
  run_monad.

(** What the closure does between its two metrics reports. *)
Lemma versionBody_run (address : string) (own : Migrate.Version) (w : World)
    (s : Store) :
  exists body,
    trace (snd (versionBody tabwriter address own w s)) = trace s ++ body /\
    (exists rest,
       body = [ EvFprintf ("COMPONENT" +:+ TAB +:+ "VERSION" +:+ TAB +:+ LF);
                EvFprintf ("pachctl" +:+ TAB +:+ Migrate.PrettyPrintVersion own
                           +:+ TAB +:+ LF);
                EvFlush;
                EvNet (Migrate.EvDial address) ] ++ rest) /\
    List.filter isMetrics body = [] /\
    rows body
    = [ "COMPONENT" +:+ TAB +:+ "VERSION" +:+ TAB +:+ LF;
        "pachctl" +:+ TAB +:+ Migrate.PrettyPrintVersion own +:+ TAB +:+ LF ]
      ++ match Migrate.Dial (net w) address,
               Migrate.GetVersion (net w) address Migrate.time_Second with
         | None, inr v =>
             [ "pachd" +:+ TAB +:+ Migrate.PrettyPrintVersion v +:+ TAB +:+ LF ]
         | _, _ => []
         end /\
    fst (versionBody tabwriter address own w s)
    = Ok match Migrate.Dial (net w) address with
         | Some e => Some (errors_New (ErrorDesc e))
         | None =>
             match Migrate.GetVersion (net w) address Migrate.time_Second with
             | inl e =>
                 Some (errors_New
                         (tabwriter
                            (unknownText address
                               (Some (errors_New (ErrorDesc e))))))
             | inr _ => stdoutFlush w (S (flushes s))
             end
         end.
Proof.
  run_version. cbn.
  destruct (Migrate.Dial (net w) address) as [e|]; cbn.
  - eexists. split; [rewrite <- !List.app_assoc; reflexivity|].
    split; [eexists; reflexivity|]. repeat split.
  - destruct (Migrate.GetVersion (net w) address Migrate.time_Second)
      as [e|v]; cbn.
    + eexists. split; [rewrite <- !List.app_assoc; reflexivity|].
      split; [eexists; reflexivity|]. repeat split.
    + eexists. split; [rewrite <- !List.app_assoc; reflexivity|].
      split; [eexists; reflexivity|]. repeat split.
Qed.

(** X8: with metrics on, every run of version reports to metrics exactly
    the error it returns: the run opens with the start report, closes
    with the finish report carrying the returned error, the wait for it,
    and the wait for the start report, and reports nothing in between.
    With --no-metrics it reports nothing at all. *)
Theorem version_reports_what_it_returns (address : string)
    (own : Migrate.Version) (w : World) :
  (let run := versionCmd tabwriter address false own w start in
   exists r body,
     fst run = Ok r /\
     trace (snd run)
     = EvStartReport "Version" :: body
       ++ [ EvFinishReport "Version" r; EvFinishWait; EvStartWait ] /\
     List.filter isMetrics body = []) /\
  (let run := versionCmd tabwriter address true own w start in
   List.filter isMetrics (trace (snd run)) = []).
Proof.
  split; cbv zeta.
  - destruct (versionBody_run address own w
                {| flushes := 0; trace := [EvStartReport "Version"] |})
      as (body & Hs & _ & Hm & _ & Hr).
    unfold versionCmd, emit, start. run_monad. cbn [negb flushes trace app].
    destruct (versionBody tabwriter address own w
                {| flushes := 0; trace := [EvStartReport "Version"] |})
      as [r s1]. cbn [fst snd] in *. rewrite Hr.
    eexists. exists body. unfold emit. cbn [flushes trace fst snd].
    split; [reflexivity|]. split; [|exact Hm].
    rewrite Hs, <- !List.app_assoc. reflexivity.
  - destruct (versionBody_run address own w start)
      as (body & Hs & _ & Hm & _). unfold versionCmd. cbn [negb].
    rewrite Hs. cbn [trace start app]. exact Hm.
Qed.

(** X9: version shows the client's own version first and whatever the
    server does: the header and the pachctl row are written and flushed
    before the server is dialled. The pachd row follows only when the
    server answered; otherwise the command returns an error: the
    sanitized dial error, or the laid-out "version unknown" text naming
    the address. None of this depends on --no-metrics. *)
Theorem version_shows_client_version_first (address : string)
    (noMetrics : bool) (own : Migrate.Version) (w : World) :
  let run := versionCmd tabwriter address noMetrics own w start in
  let header := "COMPONENT" +:+ TAB +:+ "VERSION" +:+ TAB +:+ LF in
  let row := fun component v =>
    component +:+ TAB +:+ Migrate.PrettyPrintVersion v +:+ TAB +:+ LF in
  (exists rest,
     List.filter (fun e => negb (isMetrics e)) (trace (snd run))
     = [ EvFprintf header; EvFprintf (row "pachctl" own); EvFlush;
         EvNet (Migrate.EvDial address) ] ++ rest) /\
  match Migrate.Dial (net w) address,
        Migrate.GetVersion (net w) address Migrate.time_Second with
  | Some e, _ =>
      rows (trace (snd run)) = [ header; row "pachctl" own ] /\
      fst run = Ok (Some (errors_New (ErrorDesc e)))
  | None, inl e =>
      rows (trace (snd run)) = [ header; row "pachctl" own ] /\
      fst run
      = Ok (Some (errors_New
                    (tabwriter (unknownText address
                                  (Some (errors_New (ErrorDesc e)))))))
  | None, inr v =>
      rows (trace (snd run))
      = [ header; row "pachctl" own; row "pachd" v ] /\
      fst run = Ok (stdoutFlush w 1)
  end.
Proof.
  cbv zeta. destruct noMetrics.
  - destruct (versionBody_run address own w start)
      as (body & Hs & (rest & Hb) & Hm & Hrows & Hr).
    unfold versionCmd. cbn [negb]. rewrite Hs, Hr. cbn [trace start app fst].
    split.
    + exists (List.filter (fun e => negb (isMetrics e)) rest).
      rewrite Hb. reflexivity.
    + rewrite Hrows. cbn [flushes start].
      destruct (Migrate.Dial (net w) address);
        [|destruct (Migrate.GetVersion (net w) address Migrate.time_Second)];
        split; reflexivity.
  - destruct (versionBody_run address own w
                {| flushes := 0; trace := [EvStartReport "Version"] |})
      as (body & Hs & (rest & Hb) & Hm & Hrows & Hr).
    unfold versionCmd, emit, start. run_monad. cbn [negb flushes trace app].
    destruct (versionBody tabwriter address own w
                {| flushes := 0; trace := [EvStartReport "Version"] |})
      as [r s1]. cbn [fst snd] in *. rewrite Hr.
    unfold emit. cbn [flushes trace fst snd]. rewrite Hs.
    split.
    + exists (List.filter (fun e => negb (isMetrics e)) rest).
      rewrite Hb, <- !List.app_assoc. cbn.
      rewrite List.filter_app. cbn. rewrite List.app_nil_r. reflexivity.
    + unfold rows in *. rewrite !List.flat_map_app. cbn.
      rewrite !List.app_nil_r, Hrows.
      destruct (Migrate.Dial (net w) address);
        [|destruct (Migrate.GetVersion (net w) address Migrate.time_Second)];
        split; reflexivity.
Qed.

End VersionExtras.

(** ** garbage-collect and [sanitizeErr] *)

Section SmallCommands.
Import GarbageCollect.

(** X10: garbage-collect calls the collection exactly once when the client
    is built, and returns the collection's result; when the client cannot
    be built it returns that error as it is (it does not pass it through
    [sanitizeErr], as delete-all does) and collects nothing. *)
Theorem garbage_collect_runs_once (address : string) (noMetrics : bool)
    (w : World) :
  let run := garbageCollect address noMetrics w [] in
  match newClient w address (negb noMetrics) "user" with
  | Some e => fst run = Ok (Some e) /\ collections (snd run) = 0
  | None => fst run = Ok (garbageCollectResult w) /\ collections (snd run) = 1
  end /\
  List.hd_error (snd run) = Some (EvNewClient address (negb noMetrics) "user").
Proof.
  cbv zeta. unfold garbageCollect, NewMetricsClientFromAddress,
    client_GarbageCollect, emit. run_monad. cbn.
  destruct (newClient w address (negb noMetrics) "user"); cbn; auto.
Qed.

(** X11: [sanitizeErr] keeps nil and only nil as nil, leaves behind an
    error whose text is the grpc description of the one it was given (so
    the "rpc error: code = ... desc = " wrapper is gone), and sanitizing
    twice is sanitizing once. *)
Theorem sanitizeErr_idempotent (err : option error) :
  sanitizeErr (sanitizeErr err) = sanitizeErr err /\
  (sanitizeErr err = None <-> err = None) /\
  (forall e, err = Some e ->
     exists e', sanitizeErr err = Some e' /\ Error e' = ErrorDesc e /\
       (forall code desc, e = rpcError code desc ->
          Error e = "rpc error: code = " +:+ fmt_N code +:+ " desc = "
                    +:+ Error e')).
Proof.
  destruct err as [[s|code desc]|]; cbn.
  - repeat split; try discriminate.
    intros e He; inversion He; subst e. eexists. repeat split.
    intros c d H; discriminate.
  - repeat split; try discriminate.
    intros e He; inversion He; subst e. eexists. repeat split.
    intros c d H; inversion H; reflexivity.
  - repeat split. intros e He; discriminate.
Qed.

End SmallCommands.
